(** * TimeInMarketSim: the SIP engine of [TimeInMarketSim.py]

    A shallow embedding of [get_next_trading_day], of [calculate_sip] and
    of the parts of [main] around the engine (the frequency prompts, the
    guard in front of the engine, the summary), and the properties of the
    investment-date resolver, of the portfolio accumulator and of the
    caller that are established on it.

    Modelling conventions.
    - A pandas [Timestamp] is the wall-clock reading of its zone, in
      seconds from the midnight that starts day 0 of the proleptic
      Gregorian calendar (day 1 is 0001-01-01, as in Python's
      [date.toordinal()]).  The index is that of daily bars, in one zone,
      [df.index.tz]; timestamps of that zone are compared by their
      readings.  The bounds of the nanosecond representation are not
      modelled.
    - pandas adds a [timedelta] to a zone-aware timestamp in absolute
      time: 24 hours later the wall clock shows 24 hours more only where
      the clocks of the zone were not changed in between.  A zone is given
      by this change.
    - A Python float is an extended rational: an exact finite value or one
      of the IEEE special values [inf], [-inf], [nan], which [dropna],
      [fillna] and division by zero bring into play.  Rounding, the
      overflow of a finite sum into [inf] and the sign of zero are not
      modelled.
    - The frame is the list of its rows in index order; its index is a
      DatetimeIndex, also where it has no rows.
    - Python exceptions are the [Raise] results of an error monad.
    - The answers typed at the prompts of [main] are ASCII text, and [int]
      has the limit on the number of digits that CPython sets by
      default. *)

From Stdlib Require Import ZArith List Bool Lia String Ascii.
From Stdlib Require Import QArith Qcanon Sorted Lqa.
From Equations Require Import Equations.
Import ListNotations.

Set Implicit Arguments.

(** ** Exceptions *)

Inductive exn := ValueError | IndexError | OverflowError.

Inductive result (A : Type) :=
| Ok (a : A)
| Raise (e : exn).
Arguments Ok {A} a.
Arguments Raise {A} e.

Definition bind {A B} (r : result A) (k : A -> result B) : result B :=
  match r with
  | Ok a => k a
  | Raise e => Raise e
  end.

Notation "x <- r ;; k" := (bind r (fun x => k))
  (at level 61, r at next level, right associativity).

(** ** Floats *)

Module Float.

Inductive float :=
| Fin (q : Qc)
| PInf
| NInf
| NaN.

Definition Qc_of_Z (z : Z) : Qc := Q2Qc (inject_Z z).
Definition of_Z (z : Z) : float := Fin (Qc_of_Z z).

Definition zero : float := Fin 0%Qc.

(** The sign of a finite value: [Lt], [Eq] or [Gt] against zero. *)
Definition sgn (q : Qc) : comparison := (q ?= 0)%Qc.

Definition fneg (x : float) : float :=
  match x with
  | Fin a => Fin (- a)%Qc
  | PInf => NInf
  | NInf => PInf
  | NaN => NaN
  end.

Definition fadd (x y : float) : float :=
  match x, y with
  | NaN, _ | _, NaN => NaN
  | Fin a, Fin b => Fin (a + b)%Qc
  | PInf, NInf | NInf, PInf => NaN
  | PInf, _ | _, PInf => PInf
  | NInf, _ | _, NInf => NInf
  end.

Definition fsub (x y : float) : float := fadd x (fneg y).

(** An infinity of the sign of [s], or [nan] where [s] is zero. *)
Definition inf_of_sign (s : comparison) : float :=
  match s with
  | Gt => PInf
  | Lt => NInf
  | Eq => NaN
  end.

Definition fmul (x y : float) : float :=
  match x, y with
  | NaN, _ | _, NaN => NaN
  | Fin a, Fin b => Fin (a * b)%Qc
  | Fin a, PInf | PInf, Fin a => inf_of_sign (sgn a)
  | Fin a, NInf | NInf, Fin a => inf_of_sign (CompOpp (sgn a))
  | PInf, PInf | NInf, NInf => PInf
  | PInf, NInf | NInf, PInf => NInf
  end.

Definition fdiv (x y : float) : float :=
  match x, y with
  | NaN, _ | _, NaN => NaN
  | Fin a, Fin b =>
      match sgn b with
      | Eq => inf_of_sign (sgn a)
      | _ => Fin (a / b)%Qc
      end
  | Fin _, (PInf | NInf) => zero
  | PInf, Fin b => match sgn b with Lt => NInf | _ => PInf end
  | NInf, Fin b => match sgn b with Lt => PInf | _ => NInf end
  | (PInf | NInf), (PInf | NInf) => NaN
  end.

(** [pandas.isna] on a float. *)
Definition isna (x : float) : bool :=
  match x with
  | NaN => true
  | _ => false
  end.

(** [Series.fillna(v)], one cell. *)
Definition fillna (v x : float) : float := if isna x then v else x.

(** [Series.cumsum()] (skipna): a missing cell stays missing and adds
    nothing to the running total. *)
Fixpoint cumsum_from (acc : float) (l : list float) : list float :=
  match l with
  | [] => []
  | x :: l' =>
      if isna x then NaN :: cumsum_from acc l'
      else let acc' := fadd acc x in acc' :: cumsum_from acc' l'
  end.

Definition cumsum (l : list float) : list float := cumsum_from zero l.

(** The order of floats; [nan] compares with nothing. *)
Definition fle (x y : float) : Prop :=
  match x, y with
  | NaN, _ | _, NaN => False
  | NInf, _ | _, PInf => True
  | Fin a, Fin b => (a <= b)%Qc
  | _, _ => False
  end.

(** A positive real: finite and above zero. *)
Definition positive_real (x : float) : Prop :=
  match x with
  | Fin a => (0 < a)%Qc
  | _ => False
  end.

(** A real that is not negative. *)
Definition nonneg_real (x : float) : Prop :=
  match x with
  | Fin a => (0 <= a)%Qc
  | _ => False
  end.

(** A running total that has left zero on the side of [amount]. *)
Definition same_sign (amount acc : float) : Prop :=
  match amount, acc with
  | Fin q, Fin a => (0 < q /\ 0 < a)%Qc \/ (q < 0 /\ a < 0)%Qc
  | PInf, PInf | NInf, NInf => True
  | _, _ => False
  end.

End Float.
Import Float.

(** ** The calendar

    Python's proleptic Gregorian arithmetic ([datetime], [calendar]). *)

Module Calendar.
Local Open Scope Z_scope.

Definition is_leap (year : Z) : bool :=
  (year mod 4 =? 0) && (negb (year mod 100 =? 0) || (year mod 400 =? 0)).

(** Days in each month of a common year. *)
Definition DAYS_IN_MONTH (month : Z) : Z :=
  match month with
  | 1 => 31 | 2 => 28 | 3 => 31 | 4 => 30 | 5 => 31 | 6 => 30
  | 7 => 31 | 8 => 31 | 9 => 30 | 10 => 31 | 11 => 30 | 12 => 31
  | _ => 0
  end.

(** Days of a common year before the first of each month. *)
Definition DAYS_BEFORE_MONTH (month : Z) : Z :=
  match month with
  | 1 => 0 | 2 => 31 | 3 => 59 | 4 => 90 | 5 => 120 | 6 => 151
  | 7 => 181 | 8 => 212 | 9 => 243 | 10 => 273 | 11 => 304 | 12 => 334
  | _ => 0
  end.

Definition b2z (b : bool) : Z := if b then 1 else 0.

(** Length and offset of a month, in a leap or in a common year. *)
Definition month_length (leapyear : bool) (month : Z) : Z :=
  DAYS_IN_MONTH month + b2z ((month =? 2) && leapyear).

Definition month_offset (leapyear : bool) (month : Z) : Z :=
  DAYS_BEFORE_MONTH month + b2z ((2 <? month) && leapyear).

(** [calendar.monthrange(year, month)[1]], for a month in 1..12. *)
Definition days_in_month (year month : Z) : Z :=
  month_length (is_leap year) month.

Definition days_before_year (year : Z) : Z :=
  let y := year - 1 in
  y * 365 + y / 4 - y / 100 + y / 400.

Definition days_before_month (year month : Z) : Z :=
  month_offset (is_leap year) month.

(** Ordinal of a date; 0001-01-01 is day 1. *)
Definition ymd2ord (year month day : Z) : Z :=
  days_before_year year + days_before_month year month + day.

(** Month and day of the [n]-th day (from 0) of a year: an estimate of
    the month that is at most one too large, then the correction. *)
Definition month_and_day (leapyear : bool) (n : Z) : Z * Z :=
  let month := Z.shiftr (n + 50) 5 in
  let preceding := month_offset leapyear month in
  if n <? preceding then
    let month' := month - 1 in
    let preceding' := preceding - month_length leapyear month' in
    (month', n - preceding' + 1)
  else (month, n - preceding + 1).

(** The date of an ordinal: 400-year, 100-year, 4-year and 1-year cycles. *)
Definition ord2ymd (ordinal : Z) : Z * Z * Z :=
  let n := ordinal - 1 in
  let n400 := n / 146097 in
  let n := n mod 146097 in
  let n100 := n / 36524 in
  let n := n mod 36524 in
  let n4 := n / 1461 in
  let n := n mod 1461 in
  let n1 := n / 365 in
  let n := n mod 365 in
  let year := n400 * 400 + 1 + n100 * 100 + n4 * 4 + n1 in
  if (n1 =? 4) || (n100 =? 4) then (year - 1, 12, 31)
  else
    let leapyear := (n1 =? 3) && (negb (n4 =? 24) || (n100 =? 3)) in
    let (month, day) := month_and_day leapyear n in
    (year, month, day).

End Calendar.

(** ** Timestamps *)

Definition Timestamp := Z.

Local Open Scope Z_scope.

(** The calendar day of a timestamp, and the midnight that starts a day. *)
Definition toordinal (t : Timestamp) : Z := t / 86400.
Definition midnight (ordinal : Z) : Timestamp := 86400 * ordinal.

(** A C [int]: what the [datetime] constructor, through which
    [pd.Timestamp] builds a date from its fields, takes for a field. *)
Definition c_int (z : Z) : bool :=
  (-2147483648 <=? z) && (z <=? 2147483647).

(** [pd.Timestamp(year=, month=, day=, tz=df.index.tz)]: the midnight of
    the day; a day that is no C [int] is an [OverflowError], and a day
    that the month does not have is a [ValueError].  The year and the
    month are those of a timestamp of the index. *)
Definition mk_Timestamp (year month day : Z) : result Timestamp :=
  if negb (c_int day) then Raise OverflowError
  else if (1 <=? month) && (month <=? 12)
          && (1 <=? day) && (day <=? Calendar.days_in_month year month)
  then Ok (midnight (Calendar.ymd2ord year month day))
  else Raise ValueError.

Definition year (t : Timestamp) : Z :=
  fst (fst (Calendar.ord2ymd (toordinal t))).
Definition month (t : Timestamp) : Z :=
  snd (fst (Calendar.ord2ymd (toordinal t))).
Definition day (t : Timestamp) : Z := snd (Calendar.ord2ymd (toordinal t)).

(** [Timestamp.weekday()]: Monday is 0, Sunday is 6. *)
Definition weekday (t : Timestamp) : Z := (toordinal t + 6) mod 7.

(** A date written out, for the examples: [date y m d] is the midnight of
    year [y], month [m], day [d]. *)
Definition date (y m d : Z) : Timestamp :=
  midnight (Calendar.ymd2ord y m d).

(** The zone of the index: for a wall-clock reading, by how much the
    clocks are changed during the 24 hours that follow it (3600 over a
    spring change of one hour, -3600 over an autumn one, 0 elsewhere); the
    change is less than a day. *)
Record tzinfo := mk_tzinfo {
  clock_change : Timestamp -> Z;
  clock_change_bound : forall t, -86400 < clock_change t
}.

(** [t + timedelta(days=1)]: pandas adds the 24 hours to the instant, not
    to the wall-clock reading (that is [DateOffset(days=1)]); the reading
    of the result is 24 hours later, corrected by the change of the clocks
    in between.  Midnight of 10 March 2024 in US Eastern time plus one day
    is 11 March, 01:00. *)
Definition add_one_day (tz : tzinfo) (t : Timestamp) : Timestamp :=
  t + 86400 + clock_change tz t.

(** A zone whose clocks are never changed (UTC, a fixed offset) or an index
    without a zone. *)
Definition fixed_offset : tzinfo := mk_tzinfo (fun _ => 0) (fun _ => eq_refl).

(** US Eastern time in 2024: on 10 March the clocks go from 02:00 to 03:00,
    on 3 November from 02:00 back to 01:00; the 24 hours after a reading
    hold the change where the reading is less than a day before it. *)
Definition US_Eastern_2024 : tzinfo :=
  mk_tzinfo
    (fun t =>
       if (date 2024 3 9 + 7200 <=? t) && (t <? date 2024 3 10 + 7200)
       then 3600
       else if (date 2024 11 2 + 7200 <=? t) && (t <? date 2024 11 3 + 7200)
            then -3600
            else 0)
    (fun t =>
       if (date 2024 3 9 + 7200 <=? t) && (t <? date 2024 3 10 + 7200)
          as b
          return
            (-86400 <
             if b then 3600
             else if (date 2024 11 2 + 7200 <=? t)
                     && (t <? date 2024 11 3 + 7200)
                  then -3600 else 0)
       then eq_refl
       else
         if (date 2024 11 2 + 7200 <=? t) && (t <? date 2024 11 3 + 7200)
            as b return (-86400 < if b then -3600 else 0)
         then eq_refl
         else eq_refl).

(** ** The roll-forward primitive *)

Definition get_next_trading_day (target_date : Timestamp)
    (trading_days : list Timestamp) : option Timestamp :=
  let valid_dates := filter (fun d => target_date <=? d) trading_days in
  match valid_dates with
  | d :: _ => Some d
  | [] => None
  end.

(** ** Weekday names

    [time.strptime(s, '%A').tm_wday] in the C locale: the full English day
    name, in any letter case, and nothing else. *)

Definition lower (c : ascii) : ascii :=
  let n := nat_of_ascii c in
  if (65 <=? n)%nat && (n <=? 90)%nat then ascii_of_nat (n + 32) else c.

Fixpoint lowercase (s : string) : string :=
  match s with
  | EmptyString => EmptyString
  | String c s' => String (lower c) (lowercase s')
  end.

Definition day_name : list string :=
  ["monday"; "tuesday"; "wednesday"; "thursday"; "friday"; "saturday";
   "sunday"]%string.

Fixpoint index_from (i : Z) (s : string) (names : list string) : option Z :=
  match names with
  | [] => None
  | name :: names' =>
      if String.eqb s name then Some i else index_from (i + 1) s names'
  end.

Definition strptime_wday (s : string) : result Z :=
  match index_from 0 (lowercase s) day_name with
  | Some wday => Ok wday
  | None => Raise ValueError
  end.

(** ** The investment-date resolver *)

(** The keys of [df.groupby([df.index.year, df.index.month])]: each
    (year, month) of the index once, in ascending order. *)

Definition ym_eqb (a b : Z * Z) : bool :=
  (fst a =? fst b) && (snd a =? snd b).

Definition ym_ltb (a b : Z * Z) : bool :=
  (fst a <? fst b) || ((fst a =? fst b) && (snd a <? snd b)).

Fixpoint insert_key (k : Z * Z) (keys : list (Z * Z)) : list (Z * Z) :=
  match keys with
  | [] => [k]
  | k' :: keys' =>
      if ym_eqb k k' then keys
      else if ym_ltb k k' then k :: keys
      else k' :: insert_key k keys'
  end.

Definition groupby_year_month (index : list Timestamp) : list (Z * Z) :=
  fold_right (fun t keys => insert_key (year t, month t) keys) [] index.

(** The [try]/[except ValueError] that builds the target date of a month;
    an [OverflowError] passes through it. *)
Definition target_date_of (day_of_month : Z) (ym : Z * Z) : result Timestamp :=
  let (year, month) := ym in
  match mk_Timestamp year month day_of_month with
  | Ok target_date => Ok target_date
  | Raise ValueError =>
      let last_day := Calendar.days_in_month year month in
      mk_Timestamp year month last_day
  | Raise e => Raise e
  end.

(** [if actual_date is not None and actual_date not in investment_dates:
    investment_dates.append(actual_date)]. *)
Definition record_date (actual_date : option Timestamp)
    (investment_dates : list Timestamp) : list Timestamp :=
  match actual_date with
  | Some d =>
      if existsb (Z.eqb d) investment_dates then investment_dates
      else investment_dates ++ [d]
  | None => investment_dates
  end.

Fixpoint monthly_loop (day_of_month : Z) (trading_days : list Timestamp)
    (groups : list (Z * Z)) (investment_dates : list Timestamp)
    : result (list Timestamp) :=
  match groups with
  | [] => Ok investment_dates
  | ym :: groups' =>
      target_date <- target_date_of day_of_month ym ;;
      let actual_date := get_next_trading_day target_date trading_days in
      monthly_loop day_of_month trading_days groups'
        (record_date actual_date investment_dates)
  end.

Unset Equations With Funext.

(** [while current_date <= end_date: ...; current_date += timedelta(days=1)]. *)
Equations? weekly_loop (tz : tzinfo) (target_weekday : Z)
    (trading_days : list Timestamp) (end_date current_date : Timestamp)
    (investment_dates : list Timestamp)
    : list Timestamp by wf (Z.to_nat (end_date + 1 - current_date)) lt :=
  weekly_loop tz target_weekday trading_days end_date current_date
      investment_dates with Z_le_dec current_date end_date => {
    | left _ =>
        weekly_loop tz target_weekday trading_days end_date
          (add_one_day tz current_date)
          (if weekday current_date =? target_weekday
           then record_date (get_next_trading_day current_date trading_days)
                  investment_dates
           else investment_dates);
    | right _ => investment_dates }.
Proof.
  unfold add_one_day. pose proof (clock_change_bound tz current_date). lia.
Qed.

(** The schedule: [freq_type] with [freq_val] as the branch reads it,
    [int(freq_val)] for 'monthly' and the string for 'weekly'; any other
    [freq_type] runs neither branch. *)
Inductive schedule :=
| monthly (day_of_month : Z)
| weekly (freq_val : string)
| other_frequency.

Definition resolve_investment_dates (tz : tzinfo) (sched : schedule)
    (trading_days : list Timestamp) : result (list Timestamp) :=
  match sched with
  | monthly day_of_month =>
      monthly_loop day_of_month trading_days
        (groupby_year_month trading_days) []
  | weekly freq_val =>
      target_weekday <- strptime_wday freq_val ;;
      match trading_days with
      | [] => Raise IndexError
      | current_date :: _ =>
          let end_date := last trading_days current_date in
          Ok (weekly_loop tz target_weekday trading_days end_date
                current_date [])
      end
  | other_frequency => Ok []
  end.

(** ** The portfolio accumulator

    The zone of the index, [df.index.tz], is passed next to the rows. *)

Record Row := mkRow {
  Date : Timestamp;
  Close : float;
  Invested_Today : float;
  Shares_Bought_Today : float
}.

Record AccumulatedRow := mkAccumulatedRow {
  base :> Row;
  Total_Invested : float;
  Total_Shares : float;
  Portfolio_Value : float;
  Profit : float;
  Profit_Pct : float
}.

(** [df[['Close']].dropna()] on the (index, Close) rows. *)
Definition dropna (df : list (Timestamp * float)) : list (Timestamp * float) :=
  filter (fun r => negb (isna (snd r))) df.

Definition init_columns (df : list (Timestamp * float)) : list Row :=
  map (fun r => mkRow (fst r) (snd r) zero zero) df.

(** [df.loc[date, 'Invested_Today'] += amount] and
    [df.loc[date, 'Shares_Bought_Today'] += amount / df.loc[date, 'Close']]
    on one row of that date. *)
Definition contribute (amount : float) (r : Row) : Row :=
  mkRow (Date r) (Close r)
    (fadd (Invested_Today r) amount)
    (fadd (Shares_Bought_Today r) (fdiv amount (Close r))).

(** One turn of [for date in investment_dates]. *)
Definition invest (amount : float) (df : list Row) (date : Timestamp)
    : list Row :=
  if existsb (fun r => Date r =? date) df then
    map (fun r => if Date r =? date then contribute amount r else r) df
  else df.

(** The derived columns of one row, from its running totals. *)
Definition derive (r : Row) (total_invested total_shares : float)
    : AccumulatedRow :=
  let portfolio_value := fmul total_shares (Close r) in
  let profit := fsub portfolio_value total_invested in
  let profit_pct := fmul (fdiv profit total_invested) (of_Z 100) in
  mkAccumulatedRow r total_invested total_shares portfolio_value profit
    (fillna zero profit_pct).

Fixpoint zip_rows (df : list Row) (total_invested total_shares : list float)
    : list AccumulatedRow :=
  match df, total_invested, total_shares with
  | r :: df', ti :: tis, ts :: tss => derive r ti ts :: zip_rows df' tis tss
  | _, _, _ => []
  end.

Definition totals (df : list Row) : list AccumulatedRow :=
  zip_rows df
    (cumsum (map Invested_Today df))
    (cumsum (map Shares_Bought_Today df)).

Definition calculate_sip (tz : tzinfo) (df : list (Timestamp * float))
    (amount : float) (sched : schedule) : result (list AccumulatedRow) :=
  let df := init_columns (dropna df) in
  let trading_days := map Date df in
  investment_dates <- resolve_investment_dates tz sched trading_days ;;
  Ok (totals (fold_left (invest amount) investment_dates df)).

(** ** The caller's guard

    The part of [main] between the download and the summary: the
    empty-history check, the call of the engine, and [results_df.iloc[-1]]. *)
Definition main_process (tz : tzinfo)
    (hist_data : list (Timestamp * float)) (amount : float) (sched : schedule)
    : result (list AccumulatedRow * AccumulatedRow) :=
  match hist_data with
  | [] => Raise ValueError
  | _ :: _ =>
      results_df <- calculate_sip tz hist_data amount sched ;;
      match rev results_df with
      | final_stats :: _ => Ok (results_df, final_stats)
      | [] => Raise IndexError
      end
  end.

(** ** Reference notions for the statements *)

(** A list without its repetitions: the first occurrence of each date, in
    order. *)
Fixpoint dedup (l : list Timestamp) : list Timestamp :=
  match l with
  | [] => []
  | d :: l' => d :: filter (fun d' => negb (d' =? d)) (dedup l')
  end.

(** The roll-forward results of a list of targets, in order; a target with
    no trading day on or after it gives none. *)
Definition roll_forward_all (trading_days targets : list Timestamp)
    : list Timestamp :=
  flat_map (fun target =>
              match get_next_trading_day target trading_days with
              | Some d => [d]
              | None => []
              end) targets.

(** [n] calendar days from [first] on, each at the time of day of
    [first]. *)
Fixpoint days_from (first : Timestamp) (n : nat) : list Timestamp :=
  match n with
  | O => []
  | S n' => first :: days_from (first + 86400) n'
  end.

(** Every calendar day from [first] up to [last], both included where
    [last] has the time of day of [first]. *)
Definition calendar_days (first last : Timestamp) : list Timestamp :=
  days_from first (Z.to_nat ((last - first) / 86400 + 1)).

(** The target of a month as the specification words it: the day of the
    month where the month has it, else the last day of the month. *)
Definition month_target (day_of_month : Z) (ym : Z * Z) : Timestamp :=
  let (y, m) := ym in
  if (1 <=? day_of_month) && (day_of_month <=? Calendar.days_in_month y m)
  then date y m day_of_month
  else date y m (Calendar.days_in_month y m).

(** The recording step of the two loops, run over a list of targets. *)
Definition record_targets (trading_days targets : list Timestamp)
    (investment_dates : list Timestamp) : list Timestamp :=
  fold_left
    (fun dates target =>
       record_date (get_next_trading_day target trading_days) dates)
    targets investment_dates.

(** The row of a trading day after the contributions: the amount and the
    shares it buys on an investment date, nothing on another day. *)
Definition contributed_row (amount : float)
    (investment_dates : list Timestamp) (p : Timestamp * float) : Row :=
  if existsb (Z.eqb (fst p)) investment_dates
  then mkRow (fst p) (snd p) amount (fdiv amount (snd p))
  else mkRow (fst p) (snd p) zero zero.

(** The running totals before a row: both still zero, or the invested
    total away from zero for good. *)
Definition totals_invariant (amount invested shares : float) : Prop :=
  (invested = zero /\ shares = zero) \/ same_sign amount invested.

(** Two keys of the grouping in ascending order. *)
Definition ym_lt (a b : Z * Z) : Prop := ym_ltb a b = true.

(** ** The frequency prompts of [main]

    The two answers that [main] reads for the schedule, and what it
    passes to the engine.  The answers are ASCII text: [str.strip],
    [str.lower], [str.capitalize] and [str.isdigit] are given on the
    characters below 128, and what they do with other characters (a
    digit such as a superscript two, for one) is not modelled. *)

(** [str.isspace] on a character: tab to carriage return, the four
    separators, and the blank. *)
Definition isspace (c : ascii) : bool :=
  let n := nat_of_ascii c in
  ((9 <=? n) && (n <=? 13) || (28 <=? n) && (n <=? 32))%nat.

Fixpoint lstrip (s : string) : string :=
  match s with
  | EmptyString => EmptyString
  | String c s' => if isspace c then lstrip s' else s
  end.

Fixpoint rstrip (s : string) : string :=
  match s with
  | EmptyString => EmptyString
  | String c s' =>
      match rstrip s' with
      | EmptyString => if isspace c then EmptyString else String c EmptyString
      | r => String c r
      end
  end.

Definition strip (s : string) : string := rstrip (lstrip s).

Definition upper (c : ascii) : ascii :=
  let n := nat_of_ascii c in
  if (97 <=? n)%nat && (n <=? 122)%nat then ascii_of_nat (n - 32) else c.

(** [str.capitalize]: the first character in upper case, the others in
    lower case. *)
Definition capitalize (s : string) : string :=
  match s with
  | EmptyString => EmptyString
  | String c s' => String (upper c) (lowercase s')
  end.

Definition is_digit (c : ascii) : bool :=
  let n := nat_of_ascii c in (48 <=? n)%nat && (n <=? 57)%nat.

Fixpoint all_digits (s : string) : bool :=
  match s with
  | EmptyString => true
  | String c s' => is_digit c && all_digits s'
  end.

(** [str.isdigit] on ASCII text: at least one character, and the digits
    0 to 9 only. *)
Definition isdigit (s : string) : bool :=
  match s with
  | EmptyString => false
  | String _ _ => all_digits s
  end.

Fixpoint digits_value (acc : Z) (s : string) : Z :=
  match s with
  | EmptyString => acc
  | String c s' =>
      digits_value (10 * acc + (Z.of_nat (nat_of_ascii c) - 48)) s'
  end.

(** The number of digits that [int] converts: CPython's default limit
    ([sys.get_int_max_str_digits()]). *)
Definition int_max_str_digits : nat := 4300.

(** [int(s)] where [s] is made of decimal digits, which is what this
    program applies it to: the value, leading zeros allowed, or a
    [ValueError] for more digits than the limit. *)
Definition int_of_digits (s : string) : result Z :=
  if (int_max_str_digits <? String.length s)%nat then Raise ValueError
  else Ok (digits_value 0 s).

Definition days : list string :=
  ["Monday"; "Tuesday"; "Wednesday"; "Thursday"; "Friday"]%string.

(** Step 3 of [main]: [freq_type] and [freq_val] from the answer to the
    frequency prompt and the answer to the prompt for the day that
    follows it.  The text [freq_str], which is for the display only, is
    left out. *)
Definition main_frequency (freq_choice_answer freq_val_answer : string)
    : result (string * string) :=
  let freq_choice := lowercase (strip freq_choice_answer) in
  if String.eqb freq_choice "weekly" then
    let freq_val := capitalize (strip freq_val_answer) in
    if negb (existsb (String.eqb freq_val) days)
    then Ok ("weekly", "Monday")%string
    else Ok ("weekly"%string, freq_val)
  else
    let freq_val := strip freq_val_answer in
    if negb (isdigit freq_val) then Ok ("monthly", "1")%string
    else
      day_of_month <- int_of_digits freq_val ;;
      if negb ((1 <=? day_of_month) && (day_of_month <=? 31))
      then Ok ("monthly", "1")%string
      else Ok ("monthly"%string, freq_val).

(** The schedule that [calculate_sip] reads from [freq_type] and
    [freq_val]: the branch taken, with [int(freq_val)] in the monthly
    one. *)
Definition schedule_of (freq_type freq_val : string) : result schedule :=
  if String.eqb freq_type "monthly" then
    day_of_month <- int_of_digits freq_val ;;
    Ok (monthly day_of_month)
  else if String.eqb freq_type "weekly" then Ok (weekly freq_val)
  else Ok other_frequency.

(** ** The summary of [main] *)

(** [x > y] on floats. *)
Definition fgtb (x y : float) : bool :=
  match x, y with
  | NaN, _ | _, NaN => false
  | Fin a, Fin b =>
      match (a ?= b)%Qc with
      | Gt => true
      | _ => false
      end
  | PInf, PInf => false
  | PInf, _ => true
  | Fin _, NInf => true
  | _, _ => false
  end.

(** The return on investment that the summary prints. *)
Definition summary_roi (final_stats : AccumulatedRow) : float :=
  if fgtb (Total_Invested final_stats) zero
  then fmul (fdiv (Profit final_stats) (Total_Invested final_stats))
         (of_Z 100)
  else zero.

(** [main] from the frequency prompts to the summary, on the answers to
    the two prompts, the amount and the downloaded history.  The steps in
    between (the prompts for the dates, the lookup of the ticker, the
    download) are not part of it; a [Raise] after the download is the
    exception that [main] catches and reports. *)
Definition main_simulation (tz : tzinfo)
    (freq_choice_answer freq_val_answer : string)
    (hist_data : list (Timestamp * float)) (amount : float)
    : result (list AccumulatedRow * AccumulatedRow * float) :=
  frequency <- main_frequency freq_choice_answer freq_val_answer ;;
  match hist_data with
  | [] => Raise ValueError
  | _ :: _ =>
      sched <- schedule_of (fst frequency) (snd frequency) ;;
      summary <- main_process tz hist_data amount sched ;;
      Ok (fst summary, snd summary, summary_roi (snd summary))
  end.

(** ** The prompt for the ISIN *)

Fixpoint uppercase (s : string) : string :=
  match s with
  | EmptyString => EmptyString
  | String c s' => String (upper c) (uppercase s')
  end.

(** Step 1 of [main]: the prompt is repeated until the answer, blanks
    removed, is not empty.  [answers] are the lines typed, in order; the
    result is [None] where they run out ([input] raises [EOFError]). *)
Fixpoint main_isin (answers : list string) : option string :=
  match answers with
  | [] => None
  | answer :: answers' =>
      let isin := uppercase (strip answer) in
      if String.eqb isin "" then main_isin answers' else Some isin
  end.

(** ** Notions for the further properties *)

(** The total that [cumsum] carries past a list of cells: the sum of the
    cells that are present. *)
Fixpoint running_total (acc : float) (l : list float) : float :=
  match l with
  | [] => acc
  | x :: l' => running_total (if isna x then acc else fadd acc x) l'
  end.

(** Whether the day of a row is an investment date, and the number of
    such rows. *)
Definition is_contribution (investment_dates : list Timestamp)
    (r : AccumulatedRow) : bool :=
  existsb (Z.eqb (Date r)) investment_dates.

Definition contributions (investment_dates : list Timestamp)
    (rows : list AccumulatedRow) : nat :=
  List.length (filter (is_contribution investment_dates) rows).

(** The amount added to 0 a number of times, one addition after the
    other, as [cumsum] adds the contributions up. *)
Definition amount_added (times : nat) (amount : float) : float :=
  Nat.iter times (fun total => fadd total amount) zero.

(** A schedule of the specification: a day of the month from 1 to 31, or
    a weekday name from Monday to Friday. *)
Definition valid_schedule (sched : schedule) : Prop :=
  match sched with
  | monthly day_of_month => 1 <= day_of_month <= 31
  | weekly freq_val =>
      exists wd, strptime_wday freq_val = Ok wd /\ 0 <= wd <= 4
  | other_frequency => False
  end.

(** What [lstrip] leaves does not start with a blank. *)
Definition starts_without_space (s : string) : Prop :=
  match s with
  | EmptyString => True
  | String c _ => isspace c = false
  end.

(** ASCII text: every character is below 128. *)
Fixpoint is_ascii (s : string) : bool :=
  match s with
  | EmptyString => true
  | String c s' => (nat_of_ascii c <? 128)%nat && is_ascii s'
  end.

(** * Properties *)

(** ** The calendar *)

Module CalendarFacts.
Import Calendar.

Ltac Zify.zify_post_hook ::= Z.to_euclidean_division_equations.

Ltac eqb_cases :=
  repeat match goal with
         | |- context [?x =? ?y] => destruct (Z.eqb_spec x y)
         | |- context [?x <? ?y] => destruct (Z.ltb_spec x y)
         | |- context [?x <=? ?y] => destruct (Z.leb_spec x y)
         end.

(** Evaluates the month tables at a literal month. *)
Ltac eval_closed :=
  repeat match goal with
  | |- context [month_offset ?l (Z.pos ?p)] =>
      let v := eval vm_compute in (month_offset l (Z.pos p)) in
      change (month_offset l (Z.pos p)) with v
  | |- context [month_length ?l (Z.pos ?p - 1)] =>
      let v := eval vm_compute in (month_length l (Z.pos p - 1)) in
      change (month_length l (Z.pos p - 1)) with v
  | |- context [month_length ?l (Z.pos ?p)] =>
      let v := eval vm_compute in (month_length l (Z.pos p)) in
      change (month_length l (Z.pos p)) with v
  end.

Lemma month_cases m :
  1 <= m <= 12 ->
  m = 1 \/ m = 2 \/ m = 3 \/ m = 4 \/ m = 5 \/ m = 6 \/
  m = 7 \/ m = 8 \/ m = 9 \/ m = 10 \/ m = 11 \/ m = 12.
Proof. lia. Qed.

Lemma month_length_bounds leap m :
  1 <= m <= 12 -> 28 <= month_length leap m <= 31.
Proof.
  intros Hm. apply month_cases in Hm.
  repeat (destruct Hm as [->|Hm]); try subst m; destruct leap;
    vm_compute; split; discriminate.
Qed.


Lemma month_and_day_month_range leap n :
  0 <= n < 365 -> 1 <= fst (month_and_day leap n) <= 12.
Proof.
  intros Hn. unfold month_and_day. rewrite Z.shiftr_div_pow2 by lia.
  change (2 ^ 5) with 32.
  assert (Hq : 1 <= (n + 50) / 32 <= 12) by lia.
  apply month_cases in Hq.
  repeat (destruct Hq as [Hq|Hq]); rewrite Hq; destruct leap;
    eval_closed;
    repeat match goal with |- context [?x <? ?y] => destruct (Z.ltb_spec x y) end;
    cbn [fst]; lia.
Qed.







(** Every ordinal has a month from 1 to 12. *)
Lemma ord2ymd_month_range ordinal :
  1 <= snd (fst (ord2ymd ordinal)) <= 12.
Proof.
  unfold ord2ymd. cbv zeta.
  destruct (_ || _); [cbn; lia|].
  match goal with
  | |- context [month_and_day ?l ?n] =>
      pose proof (@month_and_day_month_range l n) as H;
      destruct (month_and_day l n) as [mo da]
  end.
  cbn [fst snd] in *. apply H.
  apply Z.mod_pos_bound. lia.
Qed.

End CalendarFacts.

(** ** Roll-forward *)

Section RollForward.

Variable target_date : Timestamp.

Lemma next_trading_day_split (trading_days : list Timestamp) (d : Timestamp) :
  get_next_trading_day target_date trading_days = Some d ->
  target_date <= d /\
  exists before after,
    trading_days = before ++ d :: after /\
    Forall (fun d' => d' < target_date) before.
Proof.
  unfold get_next_trading_day.
  induction trading_days as [|x l IH]; simpl; [discriminate|].
  destruct (target_date <=? x) eqn:E.
  - intros [= <-]. apply Z.leb_le in E. split; [exact E|].
    exists [], l. split; [reflexivity|constructor].
  - intros H. destruct (IH H) as (Hle & b & a & -> & Hb).
    split; [exact Hle|]. exists (x :: b), a.
    split; [reflexivity|]. constructor; [|exact Hb].
    apply Z.leb_gt in E. exact E.
Qed.

Lemma next_trading_day_in (trading_days : list Timestamp) (d : Timestamp) :
  get_next_trading_day target_date trading_days = Some d -> In d trading_days.
Proof.
  intros H. destruct (next_trading_day_split _ H) as (_ & b & a & -> & _).
  apply in_or_app. right. left. reflexivity.
Qed.

Lemma next_trading_day_none (trading_days : list Timestamp) :
  get_next_trading_day target_date trading_days = None <->
  forall d, In d trading_days -> d < target_date.
Proof.
  unfold get_next_trading_day.
  induction trading_days as [|x l IH]; simpl.
  - split; [intros _ d []|reflexivity].
  - destruct (target_date <=? x) eqn:E.
    + split; [discriminate|]. intros H. apply Z.leb_le in E.
      specialize (H x (or_introl eq_refl)). lia.
    + apply Z.leb_gt in E. rewrite IH. split.
      * intros H d [<-|Hd]; [exact E|exact (H d Hd)].
      * intros H d Hd. apply H. right. exact Hd.
Qed.

Lemma next_trading_day_least (trading_days : list Timestamp) (d : Timestamp) :
  Sorted Z.le trading_days ->
  get_next_trading_day target_date trading_days = Some d ->
  forall d', In d' trading_days -> target_date <= d' -> d <= d'.
Proof.
  intros Hs H d' Hd' Hle.
  destruct (next_trading_day_split _ H) as (_ & b & a & -> & Hb).
  apply Sorted_StronglySorted in Hs; [|intros x y z; apply Z.le_trans].
  apply in_app_or in Hd'. destruct Hd' as [Hd'|[<-|Hd']].
  - rewrite Forall_forall in Hb. specialize (Hb d' Hd'). lia.
  - lia.
  - clear Hb H. induction b as [|x b IH]; simpl in Hs.
    + inversion Hs as [|? ? _ Hall]; subst.
      rewrite Forall_forall in Hall. exact (Hall d' Hd').
    + inversion Hs; subst. apply IH. assumption.
Qed.

End RollForward.

(** C7.  On an ascending list of trading days the roll-forward primitive
    returns the earliest trading day on or after the target: a day of the
    list, not before the target, and not after any other such day; it
    returns no date exactly when every trading day is before the target;
    and a target that is itself a trading day is returned unchanged. *)
Theorem get_next_trading_day_earliest
    (target_date : Timestamp) (trading_days : list Timestamp)
    (Hascending : Sorted Z.le trading_days) :
  match get_next_trading_day target_date trading_days with
  | Some d =>
      In d trading_days /\ target_date <= d /\
      forall d', In d' trading_days -> target_date <= d' -> d <= d'
  | None => forall d', In d' trading_days -> d' < target_date
  end /\
  (In target_date trading_days ->
   get_next_trading_day target_date trading_days = Some target_date).
Proof.
  assert (Hcase :
    match get_next_trading_day target_date trading_days with
    | Some d =>
        In d trading_days /\ target_date <= d /\
        forall d', In d' trading_days -> target_date <= d' -> d <= d'
    | None => forall d', In d' trading_days -> d' < target_date
    end).
  { destruct (get_next_trading_day target_date trading_days) as [d|] eqn:E.
    - split; [exact (next_trading_day_in _ _ E)|]. split.
      + exact (proj1 (next_trading_day_split _ _ E)).
      + exact (next_trading_day_least Hascending E).
    - apply next_trading_day_none. exact E. }
  split; [exact Hcase|].
  intros Hin.
  destruct (get_next_trading_day target_date trading_days) as [d|].
  - destruct Hcase as (_ & Hle & Hmin).
    specialize (Hmin target_date Hin (Z.le_refl _)).
    f_equal. lia.
  - specialize (Hcase target_date Hin). lia.
Qed.

Lemma get_next_trading_day_earliest_witness :
  let trading_days := [date 2024 1 2; date 2024 1 3; date 2024 1 5] in
  Sorted Z.le trading_days /\
  get_next_trading_day (date 2024 1 4) trading_days = Some (date 2024 1 5) /\
  get_next_trading_day (date 2024 1 3) trading_days = Some (date 2024 1 3) /\
  get_next_trading_day (date 2024 1 6) trading_days = None.
Proof.
  assert (Hs : Sorted Z.le [date 2024 1 2; date 2024 1 3; date 2024 1 5]).
  { repeat constructor; vm_compute; discriminate. }
  pose proof (get_next_trading_day_earliest (date 2024 1 3) Hs) as H.
  split; [exact Hs|]. split; [reflexivity|]. split; [|reflexivity].
  apply (proj2 H). right. left. reflexivity.
Defined.

(** ** Timestamps *)



Lemma month_range t : 1 <= month t <= 12.
Proof. apply CalendarFacts.ord2ymd_month_range. Qed.

Lemma days_in_month_bounds y m :
  1 <= m <= 12 -> 28 <= Calendar.days_in_month y m <= 31.
Proof. apply CalendarFacts.month_length_bounds. Qed.

Lemma weekday_next t : weekday (t + 86400) = (weekday t + 1) mod 7.
Proof. unfold weekday, toordinal. lia. Qed.

(** ** Deduplication *)

Lemma filter_filter_and {A} (f g : A -> bool) (l : list A) :
  filter f (filter g l) = filter (fun x => g x && f x) l.
Proof.
  induction l as [|x l IH]; simpl; [reflexivity|].
  destruct (g x); simpl; [destruct (f x)|]; rewrite IH; reflexivity.
Qed.

Lemma existsb_eqb_In (d : Timestamp) (l : list Timestamp) :
  existsb (Z.eqb d) l = true <-> In d l.
Proof.
  rewrite existsb_exists. split.
  - intros (x & Hx & E). apply Z.eqb_eq in E. subst. exact Hx.
  - intros H. exists d. split; [exact H|apply Z.eqb_refl].
Qed.

Lemma dedup_In (l : list Timestamp) (d : Timestamp) :
  In d (dedup l) <-> In d l.
Proof.
  induction l as [|x l IH]; simpl; [tauto|].
  rewrite filter_In, IH, negb_true_iff, Z.eqb_neq.
  destruct (Z.eq_dec x d); [subst|]; intuition congruence.
Qed.

Lemma dedup_NoDup (l : list Timestamp) : NoDup (dedup l).
Proof.
  induction l as [|x l IH]; simpl; constructor.
  - rewrite filter_In, negb_true_iff, Z.eqb_neq. tauto.
  - apply NoDup_filter. exact IH.
Qed.

Lemma dedup_length (l : list Timestamp) : (List.length (dedup l) <= List.length l)%nat.
Proof.
  induction l as [|x l IH]; simpl; [lia|].
  pose proof (filter_length_le (fun d' => negb (d' =? x)) (dedup l)) as H.
  apply le_n_S. eapply Nat.le_trans; [exact H|exact IH].
Qed.

Lemma roll_forward_all_In trading_days targets d :
  In d (roll_forward_all trading_days targets) <->
  exists target,
    In target targets /\ get_next_trading_day target trading_days = Some d.
Proof.
  unfold roll_forward_all. rewrite in_flat_map. split.
  - intros (t & Ht & Hd). exists t. split; [exact Ht|].
    destruct (get_next_trading_day t trading_days); simpl in Hd.
    + destruct Hd as [->|[]]. reflexivity.
    + destruct Hd.
  - intros (t & Ht & E). exists t. split; [exact Ht|].
    rewrite E. left. reflexivity.
Qed.

Lemma roll_forward_all_length trading_days targets :
  (List.length (roll_forward_all trading_days targets) <= List.length targets)%nat.
Proof.
  induction targets as [|t l IH]; simpl; [lia|].
  rewrite length_app.
  destruct (get_next_trading_day t trading_days); simpl; lia.
Qed.

Lemma record_targets_dedup trading_days targets investment_dates :
  record_targets trading_days targets investment_dates =
  investment_dates ++
  filter (fun d => negb (existsb (Z.eqb d) investment_dates))
    (dedup (roll_forward_all trading_days targets)).
Proof.
  unfold record_targets.
  revert investment_dates.
  induction targets as [|t l IH]; intros inv; simpl.
  - rewrite app_nil_r. reflexivity.
  - rewrite IH. unfold record_date.
    destruct (get_next_trading_day t trading_days) as [d|]; simpl;
      [|reflexivity].
    destruct (existsb (Z.eqb d) inv) eqn:E; simpl.
    + f_equal. rewrite filter_filter_and. apply filter_ext_in.
      intros x _. destruct (Z.eqb_spec x d) as [->|]; simpl;
        [rewrite E|]; reflexivity.
    + rewrite <- app_assoc. simpl. f_equal. f_equal.
      rewrite filter_filter_and. apply filter_ext.
      intros x. rewrite existsb_app. simpl. rewrite orb_false_r.
      rewrite negb_orb. apply andb_comm.
Qed.

Lemma record_targets_nil trading_days targets :
  record_targets trading_days targets [] =
  dedup (roll_forward_all trading_days targets).
Proof.
  rewrite record_targets_dedup. cbn [app existsb negb].
  induction (dedup _) as [|x l IH]; cbn [filter]; [|rewrite IH]; reflexivity.
Qed.

(** ** Grouping by year and month *)

Lemma ym_eqb_eq a b : ym_eqb a b = true <-> a = b.
Proof.
  destruct a as [y m], b as [y' m']. unfold ym_eqb. simpl.
  rewrite andb_true_iff, !Z.eqb_eq. split; [intros [-> ->]|intros [= -> ->]]; auto.
Qed.

Lemma ym_lt_trans a b c : ym_lt a b -> ym_lt b c -> ym_lt a c.
Proof.
  destruct a, b, c. unfold ym_lt, ym_ltb. simpl.
  rewrite !orb_true_iff, !andb_true_iff, !Z.ltb_lt, !Z.eqb_eq. lia.
Qed.


Lemma ym_lt_total a b : ym_eqb a b = false -> ym_ltb a b = false -> ym_lt b a.
Proof.
  destruct a, b. unfold ym_lt, ym_ltb, ym_eqb. simpl.
  rewrite !orb_false_iff, !andb_false_iff, !orb_true_iff, !andb_true_iff,
    !Z.ltb_lt, !Z.ltb_ge, !Z.eqb_eq, !Z.eqb_neq. lia.
Qed.

Lemma insert_key_In k keys k' :
  In k' (insert_key k keys) <-> k' = k \/ In k' keys.
Proof.
  induction keys as [|x l IH]; simpl.
  - intuition.
  - destruct (ym_eqb k x) eqn:E.
    + apply ym_eqb_eq in E. subst. simpl. intuition.
    + destruct (ym_ltb k x); simpl; [|rewrite IH]; intuition.
Qed.

Lemma insert_key_sorted k keys :
  StronglySorted ym_lt keys -> StronglySorted ym_lt (insert_key k keys).
Proof.
  induction 1 as [|x l Hs IH Hall]; simpl.
  - repeat constructor.
  - destruct (ym_eqb k x) eqn:E; [constructor; assumption|].
    destruct (ym_ltb k x) eqn:L.
    + constructor; [constructor; assumption|].
      constructor; [exact L|].
      eapply Forall_impl; [|exact Hall].
      intros y Hy. exact (ym_lt_trans L Hy).
    + constructor; [exact IH|].
      rewrite Forall_forall in *. intros y Hy.
      apply insert_key_In in Hy. destruct Hy as [->|Hy].
      * exact (ym_lt_total _ _ E L).
      * exact (Hall y Hy).
Qed.

Lemma groupby_sorted index : StronglySorted ym_lt (groupby_year_month index).
Proof.
  induction index as [|t l IH]; simpl; [constructor|].
  apply insert_key_sorted. exact IH.
Qed.


Lemma groupby_In index y m :
  In (y, m) (groupby_year_month index) <->
  exists t, In t index /\ year t = y /\ month t = m.
Proof.
  induction index as [|t l IH]; simpl.
  - split; [intros []|intros (t & [] & _)].
  - rewrite insert_key_In, IH. split.
    + intros [[= -> ->]|(t' & Ht' & E)].
      * exists t. auto.
      * exists t'. auto.
    + intros (t' & [->|Ht'] & <- & <-).
      * left. reflexivity.
      * right. exists t'. auto.
Qed.

(** ** The monthly loop *)

Lemma c_int_range z :
  c_int z = true <-> -2147483648 <= z <= 2147483647.
Proof. unfold c_int. rewrite andb_true_iff, !Z.leb_le. tauto. Qed.

Lemma target_date_of_month_target day_of_month y m :
  c_int day_of_month = true ->
  1 <= m <= 12 ->
  target_date_of day_of_month (y, m) = Ok (month_target day_of_month (y, m)).
Proof.
  intros Hc Hm. pose proof (days_in_month_bounds y Hm) as Hb.
  assert (Hlast : c_int (Calendar.days_in_month y m) = true)
    by (apply c_int_range; lia).
  unfold target_date_of, month_target, mk_Timestamp, date.
  rewrite Hc, Hlast. cbn [negb].
  destruct (Z.leb_spec 1 m); [|lia].
  destruct (Z.leb_spec m 12); [|lia].
  cbn [andb].
  destruct (Z.leb_spec 1 day_of_month);
    destruct (Z.leb_spec day_of_month (Calendar.days_in_month y m));
    cbn [andb]; try reflexivity;
    destruct (Z.leb_spec 1 (Calendar.days_in_month y m)); try lia;
    rewrite Z.leb_refl; reflexivity.
Qed.

Lemma monthly_loop_record day_of_month trading_days groups investment_dates :
  c_int day_of_month = true ->
  (forall y m, In (y, m) groups -> 1 <= m <= 12) ->
  monthly_loop day_of_month trading_days groups investment_dates =
  Ok (record_targets trading_days
        (map (month_target day_of_month) groups) investment_dates).
Proof.
  intros Hc. revert investment_dates.
  induction groups as [|[y m] l IH]; intros inv Hm; cbn [monthly_loop map];
    [reflexivity|].
  rewrite (@target_date_of_month_target day_of_month y m Hc)
    by (apply (Hm y); left; reflexivity).
  cbn [bind]. apply IH. intros y' m' H. apply (Hm y'). right. exact H.
Qed.

(** A day of the month that is no C [int] stops the loop at its first
    month. *)
Lemma monthly_loop_overflow day_of_month trading_days ym groups
    investment_dates :
  c_int day_of_month = false ->
  monthly_loop day_of_month trading_days (ym :: groups) investment_dates =
  Raise OverflowError.
Proof.
  intros Hc. cbn [monthly_loop]. destruct ym as [y m].
  unfold target_date_of, mk_Timestamp. rewrite Hc. reflexivity.
Qed.

Lemma groupby_months index y m :
  In (y, m) (groupby_year_month index) -> 1 <= m <= 12.
Proof.
  intros H. apply groupby_In in H. destruct H as (t & _ & _ & <-).
  apply month_range.
Qed.

Lemma monthly_dates tz day_of_month trading_days :
  c_int day_of_month = true ->
  resolve_investment_dates tz (monthly day_of_month) trading_days =
  Ok (dedup (roll_forward_all trading_days
               (map (month_target day_of_month)
                  (groupby_year_month trading_days)))).
Proof.
  intros Hc. simpl.
  rewrite (@monthly_loop_record day_of_month trading_days
             (groupby_year_month trading_days) [] Hc)
    by apply groupby_months.
  rewrite record_targets_nil. reflexivity.
Qed.

Lemma groupby_nil index : groupby_year_month index = [] -> index = [].
Proof.
  destruct index as [|t l]; [reflexivity|]. intros E.
  assert (H : In (year t, month t) (groupby_year_month (t :: l))).
  { apply groupby_In. exists t. split; [left|split]; reflexivity. }
  rewrite E in H. destruct H.
Qed.

(** A resolved monthly schedule, whatever the day of the month: the dates
    are the roll-forward results of the targets of the months. *)
Lemma monthly_dates_resolved tz day_of_month trading_days investment_dates :
  resolve_investment_dates tz (monthly day_of_month) trading_days =
    Ok investment_dates ->
  investment_dates =
    dedup (roll_forward_all trading_days
             (map (month_target day_of_month)
                (groupby_year_month trading_days))).
Proof.
  destruct (c_int day_of_month) eqn:Hc.
  - rewrite (@monthly_dates tz day_of_month trading_days Hc).
    intros [= <-]. reflexivity.
  - cbn [resolve_investment_dates].
    destruct (groupby_year_month trading_days) as [|ym groups].
    + intros [= <-]. reflexivity.
    + rewrite (@monthly_loop_overflow day_of_month trading_days ym groups
                 [] Hc).
      discriminate.
Qed.

(** ** The weekly loop *)

(** The loop records the roll-forward results of the timestamps it
    visits, whatever the zone. *)
Lemma weekly_loop_targets tz target_weekday trading_days end_date n :
  forall current_date,
    (Z.to_nat (end_date + 1 - current_date) <= n)%nat ->
    exists targets,
      forall investment_dates,
        weekly_loop tz target_weekday trading_days end_date current_date
          investment_dates =
        record_targets trading_days targets investment_dates.
Proof.
  induction n as [|n IH]; intros cur Hn.
  - exists []. intros inv. simp weekly_loop.
    destruct (Z_le_dec cur end_date); [lia|reflexivity].
  - destruct (Z_le_dec cur end_date) as [Hle|Hgt].
    + destruct (IH (add_one_day tz cur)) as (targets & Ht).
      { unfold add_one_day. pose proof (clock_change_bound tz cur). lia. }
      exists (if weekday cur =? target_weekday then cur :: targets
              else targets).
      intros inv. simp weekly_loop.
      destruct (Z_le_dec cur end_date); [|contradiction]. simpl.
      rewrite Ht. destruct (weekday cur =? target_weekday); reflexivity.
    + exists []. intros inv. simp weekly_loop.
      destruct (Z_le_dec cur end_date); [contradiction|reflexivity].
Qed.

(** Without a change of the clocks the loop visits the calendar days. *)
Lemma weekly_loop_record tz target_weekday trading_days end_date n :
  (forall t, clock_change tz t = 0) ->
  forall current_date investment_dates,
    Z.to_nat ((end_date - current_date) / 86400 + 1) = n ->
    weekly_loop tz target_weekday trading_days end_date current_date
      investment_dates =
    record_targets trading_days
      (filter (fun d => weekday d =? target_weekday)
         (days_from current_date n)) investment_dates.
Proof.
  intros Htz.
  induction n as [|n IH]; intros cur inv Hn; simp weekly_loop;
    destruct (Z_le_dec cur end_date) as [Hle|Hgt]; simpl; try lia.
  - reflexivity.
  - unfold add_one_day. rewrite Htz, Z.add_0_r. rewrite IH by lia.
    destruct (weekday cur =? target_weekday); reflexivity.
Qed.

Lemma days_from_In first n d :
  In d (days_from first n) <->
  exists i, 0 <= i < Z.of_nat n /\ d = first + 86400 * i.
Proof.
  unfold Timestamp in *.
  revert first. induction n as [|n IH]; intros first; cbn [days_from In].
  - split; [intros []|intros (i & Hi & _); lia].
  - rewrite IH, Nat2Z.inj_succ. split.
    + intros [<-|(i & Hi & ->)].
      * exists 0. lia.
      * exists (i + 1). lia.
    + intros (i & Hi & ->). destruct (Z.eq_dec i 0) as [->|Hnz].
      * left. lia.
      * right. exists (i - 1). lia.
Qed.

Lemma days_from_step first n i d :
  nth_error (days_from first n) i = Some d -> d = first + 86400 * Z.of_nat i.
Proof.
  unfold Timestamp in *.
  revert first i. induction n as [|n IH]; intros first i; cbn [days_from].
  - destruct i; discriminate.
  - destruct i as [|i]; cbn [nth_error].
    + intros [= <-]. lia.
    + intros H. apply IH in H. lia.
Qed.

(** ** The investment-date resolver *)



(** In a zone whose clocks are not changed, a Weekly schedule with a
    recognised weekday, on a series that starts at [first], walks the
    calendar days from [first] to the last trading day, both included, one
    day at a time; the investment dates are the roll-forward results of
    the walked days that fall on the target weekday, in walk order, each
    kept at its first occurrence only. *)
Lemma weekly_schedule_without_clock_change
    (tz : tzinfo) (freq_val : string) (target_weekday : Z)
    (first : Timestamp) (rest : list Timestamp)
    (Hweekday : strptime_wday freq_val = Ok target_weekday)
    (Htz : forall t, clock_change tz t = 0) :
  let trading_days := first :: rest in
  let end_date := last trading_days first in
  let walk := calendar_days first end_date in
  (forall d,
      In d walk <->
      exists i, 0 <= i /\ d = first + 86400 * i /\ d <= end_date) /\
  (forall i d,
      nth_error walk i = Some d -> d = first + 86400 * Z.of_nat i) /\
  resolve_investment_dates tz (weekly freq_val) trading_days =
    Ok (dedup (roll_forward_all trading_days
                 (filter (fun d => weekday d =? target_weekday) walk))).
Proof.
  intros trading_days end_date walk. split; [|split].
  - intros d. unfold walk, calendar_days. rewrite days_from_In.
    unfold Timestamp in *.
    split; intros (i & Hi & Hd); exists i; lia.
  - intros i d. apply days_from_step.
  - unfold resolve_investment_dates. rewrite Hweekday. cbn [bind].
    unfold trading_days at 1.
    erewrite weekly_loop_record by (try reflexivity; exact Htz).
    rewrite record_targets_nil. reflexivity.
Qed.

(** C2.  The weekly walk is to visit every calendar day from the first to
    the last trading day and to resolve each day of the target weekday to
    the first trading day on or after it.  On the zone-aware index of a
    zone with clock changes the code does not: each step adds 24 hours of
    absolute time, so that after the 23-hour day of 10 March 2024 the walk
    of a series in US Eastern time stands at 01:00; Monday 11 March, a
    trading day, is visited at 01:00 and rolled forward past its own bar
    to Tuesday 12 March, the last trading day is not visited, and the
    investment dates are 4 and 12 March.  Where the clocks are not
    changed they are 4 and 11 March. *)
Theorem weekly_walk_drifts_over_clock_change :
  let trading_days :=
    [date 2024 3 4; date 2024 3 5; date 2024 3 6; date 2024 3 7;
     date 2024 3 8; date 2024 3 11; date 2024 3 12] in
  Sorted Z.lt trading_days /\
  In (date 2024 3 11) trading_days /\
  weekday (date 2024 3 11) = 0 /\
  strptime_wday "Monday" = Ok 0 /\
  resolve_investment_dates US_Eastern_2024 (weekly "Monday") trading_days =
    Ok [date 2024 3 4; date 2024 3 12] /\
  resolve_investment_dates fixed_offset (weekly "Monday") trading_days =
    Ok [date 2024 3 4; date 2024 3 11].
Proof.
  cbv zeta. split; [repeat constructor|].
  split; [cbn; tauto|]. repeat split; reflexivity.
Qed.

Lemma resolved_dates_are_rolled tz sched trading_days investment_dates :
  resolve_investment_dates tz sched trading_days = Ok investment_dates ->
  exists targets,
    investment_dates = dedup (roll_forward_all trading_days targets) /\
    forall dom, sched = monthly dom ->
      targets = map (month_target dom) (groupby_year_month trading_days).
Proof.
  destruct sched as [dom|freq_val|].
  - intros H. apply monthly_dates_resolved in H.
    eexists. split; [exact H|]. intros dom' [= <-]. reflexivity.
  - unfold resolve_investment_dates.
    destruct (strptime_wday freq_val) as [wd|]; cbn [bind]; [|discriminate].
    destruct trading_days as [|first rest]; [discriminate|].
    intros [= <-].
    destruct (@weekly_loop_targets tz wd (first :: rest)
                (last (first :: rest) first) _ first (Nat.le_refl _))
      as (targets & Ht).
    rewrite Ht, record_targets_nil.
    exists targets. split; [reflexivity|]. intros dom [=].
  - intros [= <-]. exists []. split; [reflexivity|]. intros dom [=].
Qed.

Lemma resolved_dates_NoDup tz sched trading_days investment_dates :
  resolve_investment_dates tz sched trading_days = Ok investment_dates ->
  NoDup investment_dates.
Proof.
  intros H. apply resolved_dates_are_rolled in H.
  destruct H as (targets & -> & _). apply dedup_NoDup.
Qed.

(** C4, as the code has it.  Every investment date is a date of the price
    series and no date is listed twice; a Monthly schedule yields at most
    one investment date for each calendar month of the series, the
    roll-forward of that month's target, which may fall in a later
    month. *)
Theorem investment_dates_invariant
    (tz : tzinfo) (sched : schedule)
    (trading_days investment_dates : list Timestamp)
    (Hresolved :
       resolve_investment_dates tz sched trading_days =
       Ok investment_dates) :
  (forall d, In d investment_dates -> In d trading_days) /\
  NoDup investment_dates /\
  (forall day_of_month,
      sched = monthly day_of_month ->
      let groups := groupby_year_month trading_days in
      (List.length investment_dates <= List.length groups)%nat /\
      forall d, In d investment_dates ->
        exists y m,
          In (y, m) groups /\
          get_next_trading_day (month_target day_of_month (y, m))
            trading_days = Some d).
Proof.
  pose proof (resolved_dates_NoDup _ _ _ Hresolved) as Hnodup.
  apply resolved_dates_are_rolled in Hresolved.
  destruct Hresolved as (targets & -> & Hmonthly).
  split; [|split; [exact Hnodup|]].
  - intros d Hd. apply dedup_In, roll_forward_all_In in Hd.
    destruct Hd as (t & _ & E). exact (next_trading_day_in _ _ E).
  - intros dom Hs groups. rewrite (Hmonthly dom Hs). split.
    + eapply Nat.le_trans; [apply dedup_length|].
      eapply Nat.le_trans; [apply roll_forward_all_length|].
      rewrite length_map. apply Nat.le_refl.
    + intros d Hd. apply dedup_In, roll_forward_all_In in Hd.
      destruct Hd as (t & Ht & E). apply in_map_iff in Ht.
      destruct Ht as ([y m] & <- & Hym). exists y, m. auto.
Qed.

Lemma investment_dates_invariant_witness :
  NoDup [date 2022 5 2; date 2022 5 30].
Proof.
  exact (proj1 (proj2
    (@investment_dates_invariant fixed_offset (monthly 30)
       [date 2022 4 29; date 2022 5 2; date 2022 5 30; date 2022 5 31]
       [date 2022 5 2; date 2022 5 30] eq_refl))).
Defined.

(** C4 as stated fails: with dayOfMonth 30 and a series in which 30 April
    2022, a Saturday, is no trading day, the contribution of April rolls
    forward to 2 May and the contribution of May falls on 30 May, so that
    May 2022 holds two investment dates. *)
Lemma two_investment_dates_in_one_month :
  let trading_days :=
    [date 2022 4 29; date 2022 5 2; date 2022 5 30; date 2022 5 31] in
  Sorted Z.lt trading_days /\
  resolve_investment_dates fixed_offset (monthly 30) trading_days =
    Ok [date 2022 5 2; date 2022 5 30] /\
  date 2022 5 2 <> date 2022 5 30 /\
  (year (date 2022 5 2), month (date 2022 5 2)) = (2022, 5) /\
  (year (date 2022 5 30), month (date 2022 5 30)) = (2022, 5).
Proof.
  cbv zeta. split; [repeat constructor|].
  split; [reflexivity|]. split; [discriminate|]. split; reflexivity.
Qed.

(** ** Floats *)

Module FloatFacts.
Local Open Scope Qc_scope.

Lemma fadd_zero_l x : fadd zero x = x.
Proof. destruct x; simpl; [rewrite Qcplus_0_l|..]; reflexivity. Qed.

Lemma fadd_zero_r x : fadd x zero = x.
Proof. destruct x; simpl; [rewrite Qcplus_0_r|..]; reflexivity. Qed.

Lemma Qc_this_plus (a b : Qc) : (this (a + b) == this a + this b)%Q.
Proof. unfold Qcplus, Q2Qc. cbn [this]. apply Qred_correct. Qed.

Lemma Qc_this_mult (a b : Qc) : (this (a * b) == this a * this b)%Q.
Proof. unfold Qcmult, Q2Qc. cbn [this]. apply Qred_correct. Qed.

Lemma Qc_this_inv (a : Qc) : (this (/ a) == / this a)%Q.
Proof. unfold Qcinv, Q2Qc. cbn [this]. apply Qred_correct. Qed.

Lemma Qcplus_pos_pos a b : 0 < a -> 0 < b -> 0 < a + b.
Proof.
  unfold Qclt. rewrite Qc_this_plus. cbn [this Q2Qc Qred]. simpl. lra.
Qed.

Lemma Qcplus_neg_neg a b : a < 0 -> b < 0 -> a + b < 0.
Proof.
  unfold Qclt. rewrite Qc_this_plus. cbn [this Q2Qc Qred]. simpl. lra.
Qed.

Lemma Qcplus_le_nonneg a b : 0 <= b -> a <= a + b.
Proof.
  unfold Qcle. rewrite Qc_this_plus. cbn [this Q2Qc Qred]. simpl. lra.
Qed.

Lemma Qcdiv_pos_pos a b : 0 < a -> 0 < b -> 0 < a / b.
Proof.
  unfold Qclt, Qcdiv. rewrite Qc_this_mult, Qc_this_inv.
  cbn [this Q2Qc Qred]. simpl. intros Ha Hb.
  apply Qmult_lt_0_compat; [exact Ha|]. apply Qinv_lt_0_compat. exact Hb.
Qed.

Lemma sgn_Gt a : sgn a = Gt <-> 0 < a.
Proof. unfold sgn. rewrite <- Qcgt_alt. reflexivity. Qed.


Lemma fle_trans x y z : fle x y -> fle y z -> fle x z.
Proof.
  destruct x, y, z; simpl; try tauto. apply Qcle_trans.
Qed.

End FloatFacts.

(** ** The portfolio accumulator *)

Lemma invest_map amount df date :
  invest amount df date =
  map (fun r => if Date r =? date then contribute amount r else r) df.
Proof.
  unfold invest. destruct (existsb _ df) eqn:E; [reflexivity|].
  induction df as [|r l IH]; simpl in *; [reflexivity|].
  apply orb_false_iff in E. destruct E as [E1 E2].
  rewrite E1. f_equal. apply IH. exact E2.
Qed.

Lemma apply_investments amount investment_dates :
  NoDup investment_dates ->
  forall df,
    fold_left (invest amount) investment_dates df =
    map (fun r =>
           if existsb (Z.eqb (Date r)) investment_dates
           then contribute amount r else r) df.
Proof.
  induction 1 as [|d l Hd Hnd IH]; intros df; simpl.
  - symmetry. apply map_id.
  - rewrite IH, invest_map, map_map. apply map_ext. intros r.
    destruct (Z.eqb_spec (Date r) d) as [E|E]; simpl; [|reflexivity].
    rewrite E. destruct (existsb (Z.eqb d) l) eqn:El; [|reflexivity].
    apply existsb_eqb_In in El. contradiction.
Qed.

Lemma contributed_rows amount investment_dates prices :
  NoDup investment_dates ->
  fold_left (invest amount) investment_dates (init_columns prices) =
  map (contributed_row amount investment_dates) prices.
Proof.
  intros Hnd. rewrite apply_investments by exact Hnd.
  unfold init_columns. rewrite map_map. apply map_ext. intros [d c].
  unfold contributed_row, contribute.
  cbn [fst snd Date Close Invested_Today Shares_Bought_Today].
  destruct (existsb (Z.eqb d) investment_dates); [|reflexivity].
  rewrite !FloatFacts.fadd_zero_l. reflexivity.
Qed.

Lemma init_columns_dates prices : map Date (init_columns prices) = map fst prices.
Proof. unfold init_columns. rewrite map_map. reflexivity. Qed.

(** The engine, once its dates are resolved. *)
Lemma calculate_sip_rows tz df amount sched out :
  calculate_sip tz df amount sched = Ok out ->
  exists investment_dates,
    resolve_investment_dates tz sched (map fst (dropna df)) =
      Ok investment_dates /\
    NoDup investment_dates /\
    out = totals (map (contributed_row amount investment_dates) (dropna df)).
Proof.
  unfold calculate_sip. rewrite init_columns_dates.
  destruct (resolve_investment_dates tz sched (map fst (dropna df)))
    as [inv|] eqn:E; cbn [bind]; [|discriminate].
  intros [= <-]. exists inv.
  pose proof (resolved_dates_NoDup _ _ _ E) as Hnd.
  split; [reflexivity|]. split; [exact Hnd|].
  rewrite contributed_rows by exact Hnd. reflexivity.
Qed.

Lemma cumsum_from_length acc l :
  List.length (cumsum_from acc l) = List.length l.
Proof.
  revert acc. induction l as [|x l IH]; intros acc; simpl; [reflexivity|].
  destruct (isna x); simpl; rewrite IH; reflexivity.
Qed.

Lemma zip_rows_base df : forall tis tss,
  List.length tis = List.length df -> List.length tss = List.length df ->
  map base (zip_rows df tis tss) = df /\
  map Total_Invested (zip_rows df tis tss) = tis /\
  map Total_Shares (zip_rows df tis tss) = tss.
Proof.
  induction df as [|r l IH]; intros [|ti tis] [|ts tss]; simpl;
    try discriminate; intros H1 H2; [auto|].
  destruct (IH tis tss) as (-> & -> & ->); [congruence..|].
  auto.
Qed.

Lemma totals_columns df :
  map base (totals df) = df /\
  map Total_Invested (totals df) = cumsum (map Invested_Today df) /\
  map Total_Shares (totals df) = cumsum (map Shares_Bought_Today df).
Proof.
  apply zip_rows_base; unfold cumsum;
    rewrite cumsum_from_length, length_map; reflexivity.
Qed.

Lemma zip_rows_derive df : forall tis tss a,
  In a (zip_rows df tis tss) ->
  a = derive (base a) (Total_Invested a) (Total_Shares a).
Proof.
  induction df as [|r l IH]; intros [|ti tis] [|ts tss] a; simpl;
    try tauto.
  intros [<-|H]; [reflexivity|]. exact (IH _ _ _ H).
Qed.

Lemma contributed_row_date amount investment_dates p :
  Date (contributed_row amount investment_dates p) = fst p /\
  Close (contributed_row amount investment_dates p) = snd p.
Proof.
  unfold contributed_row.
  destruct (existsb (Z.eqb (fst p)) investment_dates); split; reflexivity.
Qed.

Lemma dropna_all_present df :
  (forall p, In p df -> isna (snd p) = false) -> dropna df = df.
Proof.
  unfold dropna. induction df as [|p l IH]; intros H; simpl; [reflexivity|].
  rewrite (H p (or_introl eq_refl)). simpl. f_equal.
  apply IH. intros q Hq. apply H. right. exact Hq.
Qed.

Lemma output_row_source tz df amount sched out :
  calculate_sip tz df amount sched = Ok out ->
  exists investment_dates,
    resolve_investment_dates tz sched (map fst (dropna df)) =
      Ok investment_dates /\
    NoDup investment_dates /\
    map base out =
      map (contributed_row amount investment_dates) (dropna df) /\
    forall r : AccumulatedRow, In r out ->
      exists p, In p (dropna df) /\
                base r = contributed_row amount investment_dates p.
Proof.
  intros H. apply calculate_sip_rows in H.
  destruct H as (inv & Hres & Hnd & ->). exists inv.
  destruct (totals_columns
              (map (contributed_row amount inv) (dropna df))) as (Hb & _).
  repeat split; try assumption.
  intros r Hr. apply (in_map base) in Hr. rewrite Hb in Hr.
  apply in_map_iff in Hr. destruct Hr as (p & E & Hp). exists p. auto.
Qed.

(** C9, as the code has it.  The output has one row for each input row
    whose close price is present, with that row's date and close, in
    input order; it is aligned one to one with the input when no close
    price is missing. *)
Theorem output_rows_follow_present_closes
    (tz : tzinfo) (df : list (Timestamp * float)) (amount : float)
    (sched : schedule)
    (out : list AccumulatedRow)
    (Hout : calculate_sip tz df amount sched = Ok out) :
  map (fun r : AccumulatedRow => Date r) out = map fst (dropna df) /\
  map (fun r : AccumulatedRow => Close r) out = map snd (dropna df) /\
  ((forall p, In p df -> isna (snd p) = false) ->
   map (fun r : AccumulatedRow => Date r) out = map fst df).
Proof.
  destruct (output_row_source _ _ _ _ Hout) as (inv & _ & _ & Hb & _).
  assert (Hd : map (fun r : AccumulatedRow => Date r) out
               = map fst (dropna df)).
  { rewrite <- (map_map base Date), Hb, map_map. apply map_ext.
    intros p. apply contributed_row_date. }
  split; [exact Hd|]. split.
  - rewrite <- (map_map base Close), Hb, map_map. apply map_ext.
    intros p. apply contributed_row_date.
  - intros Hall. rewrite Hd, dropna_all_present by exact Hall. reflexivity.
Qed.

Lemma output_rows_follow_present_closes_witness :
  map (fun r : AccumulatedRow => Date r)
    (totals (fold_left (invest (of_Z 100)) [date 2024 1 3]
               (init_columns [(date 2024 1 3, of_Z 10)]))) =
  [date 2024 1 3].
Proof.
  exact (proj1
    (@output_rows_follow_present_closes fixed_offset
       [(date 2024 1 2, NaN); (date 2024 1 3, of_Z 10)] (of_Z 100)
       (monthly 1) _ eq_refl)).
Defined.

(** C9 as stated fails: a row whose close price is missing is dropped, so
    the output of a two-row series has one row. *)
Lemma missing_close_row_is_dropped :
  let df := [(date 2024 1 2, NaN); (date 2024 1 3, of_Z 10)] in
  exists out,
    calculate_sip fixed_offset df (of_Z 100) (monthly 1) = Ok out /\
    map (fun r : AccumulatedRow => Date r) out = [date 2024 1 3] /\
    map (fun r : AccumulatedRow => Date r) out <> map fst df.
Proof.
  cbv zeta. eexists. split; [reflexivity|].
  split; [reflexivity|]. intros H. vm_compute in H. discriminate H.
Qed.

(** C10.  The resolved investment dates are free of duplicates, and on
    every row of the output the amount invested that day is the
    contribution amount, once, where the day is an investment date, and
    zero on any other day; the shares bought are the amount over the close
    price, or zero. *)
Theorem one_contribution_per_investment_date
    (tz : tzinfo) (df : list (Timestamp * float)) (amount : float)
    (sched : schedule)
    (out : list AccumulatedRow)
    (Hout : calculate_sip tz df amount sched = Ok out) :
  exists investment_dates,
    resolve_investment_dates tz sched (map fst (dropna df)) =
      Ok investment_dates /\
    NoDup investment_dates /\
    forall r : AccumulatedRow, In r out ->
      (In (Date r) investment_dates ->
       Invested_Today r = amount /\
       Shares_Bought_Today r = fdiv amount (Close r)) /\
      (~ In (Date r) investment_dates ->
       Invested_Today r = zero /\ Shares_Bought_Today r = zero) /\
      (Invested_Today r = zero \/ Invested_Today r = amount).
Proof.
  destruct (output_row_source _ _ _ _ Hout) as (inv & Hres & Hnd & _ & Hrow).
  exists inv. split; [exact Hres|]. split; [exact Hnd|].
  intros r Hr. destruct (Hrow r Hr) as ([d c] & _ & ->).
  unfold contributed_row. cbn [fst snd].
  destruct (existsb (Z.eqb d) inv) eqn:E; cbn.
  - apply existsb_eqb_In in E. repeat split; tauto.
  - assert (~ In d inv) by (rewrite <- existsb_eqb_In, E; discriminate).
    repeat split; tauto.
Qed.

Lemma one_contribution_per_investment_date_witness :
  exists investment_dates,
    resolve_investment_dates fixed_offset (monthly 1)
      (map fst (dropna [(date 2024 1 2, of_Z 10); (date 2024 1 3, of_Z 20)]))
    = Ok investment_dates /\ NoDup investment_dates.
Proof.
  destruct (@one_contribution_per_investment_date fixed_offset
              [(date 2024 1 2, of_Z 10); (date 2024 1 3, of_Z 20)]
              (of_Z 100) (monthly 1) _ eq_refl) as (inv & H1 & H2 & _).
  exists inv. split; assumption.
Defined.

(** ** Running totals *)

Lemma same_sign_not_zero amount : ~ same_sign amount zero.
Proof.
  destruct amount; simpl; try tauto.
  intros [[_ H]|[_ H]]; exact (Qclt_not_eq _ _ H eq_refl).
Qed.

Lemma same_sign_add amount acc :
  same_sign amount acc -> same_sign amount (fadd acc amount).
Proof.
  destruct amount as [q| | |], acc as [a| | |]; simpl; try tauto.
  intros [[Hq Ha]|[Hq Ha]].
  - left. split; [exact Hq|]. apply FloatFacts.Qcplus_pos_pos; assumption.
  - right. split; [exact Hq|]. apply FloatFacts.Qcplus_neg_neg; assumption.
Qed.

Lemma same_sign_self amount :
  isna amount = false -> amount <> zero -> same_sign amount amount.
Proof.
  destruct amount as [q| | |]; simpl; try tauto; try discriminate.
  intros _ Hq. destruct (Qc_dec 0 q) as [[H|H]|H].
  - left. auto.
  - right. auto.
  - exfalso. apply Hq. unfold zero. rewrite <- H. reflexivity.
Qed.

Lemma fdiv_zero_l c : fdiv zero c = zero \/ fdiv zero c = NaN.
Proof.
  destruct c as [b| | |]; simpl; auto.
  destruct (sgn b); auto; left; unfold zero; f_equal;
    unfold Qcdiv; apply Qcmult_0_l.
Qed.

Lemma fmul_zero_l c : fmul zero c = zero \/ fmul zero c = NaN.
Proof.
  destruct c as [b| | |]; simpl; auto.
  left. unfold zero. f_equal. apply Qcmult_0_l.
Qed.

Lemma float_eq_dec (x y : float) : {x = y} + {x <> y}.
Proof.
  destruct x as [a| | |], y as [b| | |];
    try (left; reflexivity); try (right; discriminate).
  destruct (Qc_eq_dec a b) as [->|H]; [left; reflexivity|].
  right. intros [= E]. exact (H E).
Qed.

Lemma invariant_after_contribution amount c invested shares :
  isna amount = false ->
  totals_invariant amount invested shares ->
  totals_invariant amount (fadd invested amount)
    (if isna (fdiv amount c) then shares
     else fadd shares (fdiv amount c)).
Proof.
  intros Hna [[-> ->]|Hs].
  - rewrite FloatFacts.fadd_zero_l.
    destruct (float_eq_dec amount zero) as [->|Hz].
    + left. split; [reflexivity|].
      destruct (fdiv_zero_l c) as [-> | ->]; reflexivity.
    + right. apply same_sign_self; assumption.
  - right. apply same_sign_add. exact Hs.
Qed.

Lemma zero_invested_zero_shares amount investment_dates prices :
  forall invested shares,
    totals_invariant amount invested shares ->
    forall a,
      In a (zip_rows (map (contributed_row amount investment_dates) prices)
              (cumsum_from invested
                 (map Invested_Today
                    (map (contributed_row amount investment_dates) prices)))
              (cumsum_from shares
                 (map Shares_Bought_Today
                    (map (contributed_row amount investment_dates) prices))))
      ->
      Total_Invested a = zero ->
      Total_Shares a = zero \/ Total_Shares a = NaN.
Proof.
  induction prices as [|[d c] l IH]; intros invested shares Hinv a;
    [intros []|].
  cbn [map]. unfold contributed_row at 1 3 5. cbn [fst snd].
  destruct (existsb (Z.eqb d) investment_dates).
  - cbn [Invested_Today Shares_Bought_Today cumsum_from].
    destruct (isna amount) eqn:Hna.
    + assert (Hs : isna (fdiv amount c) = true)
        by (destruct amount; try discriminate; reflexivity).
      rewrite Hs. cbn [zip_rows]. intros [<-|Hin].
      * cbn. discriminate.
      * apply (IH _ _ Hinv a Hin).
    + pose proof (invariant_after_contribution c Hna Hinv) as Hnext.
      destruct (isna (fdiv amount c)) eqn:Hs; cbn [zip_rows];
        (intros [<-|Hin]; [|apply (IH _ _ Hnext a Hin)]).
      * cbn. auto.
      * cbn. intros Hz. left.
        destruct Hnext as [[_ E]|Hsame]; [exact E|].
        rewrite Hz in Hsame. destruct (same_sign_not_zero _ Hsame).
  - cbn [Invested_Today Shares_Bought_Today cumsum_from isna zero].
    rewrite !FloatFacts.fadd_zero_r. cbn [zip_rows].
    intros [<-|Hin]; [|apply (IH _ _ Hinv a Hin)].
    cbn. intros Hz. left.
    destruct Hinv as [[_ E]|Hsame]; [exact E|].
    rewrite Hz in Hsame. destruct (same_sign_not_zero _ Hsame).
Qed.

Lemma profit_pct_of_zero_invested r total_shares :
  total_shares = zero \/ total_shares = NaN ->
  Profit_Pct (derive r zero total_shares) = zero.
Proof.
  intros Hts. unfold derive. cbn [Profit_Pct].
  assert (Hpv : fmul total_shares (Close r) = zero \/
                fmul total_shares (Close r) = NaN).
  { destruct Hts as [-> | ->]; [apply fmul_zero_l|right; reflexivity]. }
  destruct Hpv as [-> | ->]; reflexivity.
Qed.




Lemma cumsum_from_sorted l :
  Forall nonneg_real l ->
  forall a,
    StronglySorted fle (cumsum_from (Fin a) l) /\
    Forall (fle (Fin a)) (cumsum_from (Fin a) l).
Proof.
  induction 1 as [|x l Hx Hl IH]; intros a; simpl;
    [split; constructor|].
  destruct x as [b| | |]; simpl in Hx; try contradiction.
  cbn [isna fadd].
  destruct (IH (a + b)%Qc) as [Hs Hall].
  assert (Hle : (a <= a + b)%Qc) by (apply FloatFacts.Qcplus_le_nonneg; exact Hx).
  split; constructor; try assumption.
  eapply Forall_impl; [|exact Hall].
  intros y Hy. exact (FloatFacts.fle_trans (Fin a) (Fin (a + b)) y Hle Hy).
Qed.

Lemma contributed_row_nonneg amount investment_dates p :
  positive_real amount ->
  nonneg_real (Invested_Today (contributed_row amount investment_dates p)) /\
  (positive_real (snd p) ->
   nonneg_real
     (Shares_Bought_Today (contributed_row amount investment_dates p))).
Proof.
  intros Ha. unfold contributed_row.
  destruct (existsb (Z.eqb (fst p)) investment_dates); cbn; split;
    try (intros _; apply Qcle_refl); try apply Qcle_refl.
  - destruct amount as [q| | |]; try contradiction.
    apply Qclt_le_weak. exact Ha.
  - destruct amount as [q| | |]; try contradiction.
    destruct (snd p) as [c| | |]; try contradiction.
    cbn. intros Hc.
    rewrite (proj2 (FloatFacts.sgn_Gt c) Hc). cbn.
    apply Qclt_le_weak. apply FloatFacts.Qcdiv_pos_pos; assumption.
Qed.

(** C8, as the code has it.  For a positive contribution amount the total
    invested never decreases along the output; where in addition every
    close price of the series is positive, the total of shares never
    decreases either. *)
Theorem totals_non_decreasing
    (tz : tzinfo) (df : list (Timestamp * float)) (amount : float)
    (sched : schedule)
    (out : list AccumulatedRow)
    (Hamount : positive_real amount)
    (Hout : calculate_sip tz df amount sched = Ok out) :
  StronglySorted fle (map Total_Invested out) /\
  ((forall p, In p df -> positive_real (snd p)) ->
   StronglySorted fle (map Total_Shares out)).
Proof.
  apply calculate_sip_rows in Hout.
  destruct Hout as (inv & _ & _ & ->).
  destruct (totals_columns (map (contributed_row amount inv) (dropna df)))
    as (_ & -> & ->).
  unfold cumsum, zero. split.
  - apply cumsum_from_sorted. rewrite map_map.
    apply Forall_forall. intros x Hx. apply in_map_iff in Hx.
    destruct Hx as (p & <- & _).
    apply contributed_row_nonneg. exact Hamount.
  - intros Hclose. apply cumsum_from_sorted. rewrite map_map.
    apply Forall_forall. intros x Hx. apply in_map_iff in Hx.
    destruct Hx as (p & <- & Hp).
    apply contributed_row_nonneg; [exact Hamount|].
    apply Hclose. unfold dropna in Hp. apply filter_In in Hp. tauto.
Qed.

Lemma totals_non_decreasing_witness :
  exists out,
    calculate_sip fixed_offset [(date 2024 1 2, of_Z 10); (date 2024 2 1, of_Z 20)]
      (of_Z 100) (monthly 1) = Ok out /\
    StronglySorted fle (map Total_Invested out).
Proof.
  eexists. split; [reflexivity|].
  refine (proj1 (@totals_non_decreasing fixed_offset
            [(date 2024 1 2, of_Z 10); (date 2024 2 1, of_Z 20)]
            (of_Z 100) (monthly 1) _ _ eq_refl)).
  reflexivity.
Defined.

(** C8 as stated fails: a series with a negative close price is a
    non-empty series, and a contribution bought at a negative price takes
    shares away, so the total of shares falls from 10 to -10. *)
Lemma negative_close_decreases_total_shares :
  let df := [(date 2024 1 2, of_Z 10); (date 2024 2 1, of_Z (-5))] in
  exists r1 r2 : AccumulatedRow,
    calculate_sip fixed_offset df (of_Z 100) (monthly 1) = Ok [r1; r2] /\
    Total_Shares r1 = of_Z 10 /\
    Total_Shares r2 = of_Z (-10) /\
    ~ fle (Total_Shares r1) (Total_Shares r2).
Proof.
  cbv zeta. eexists. eexists. split; [reflexivity|].
  split; [|split].
  - vm_compute. apply f_equal, Qc_is_canon. reflexivity.
  - vm_compute. apply f_equal, Qc_is_canon. reflexivity.
  - vm_compute. intros H. apply H. reflexivity.
Qed.

(** ** Rejected and accepted inputs *)

(** C5, as the code has it.  The check for an empty price history is the
    caller's: [main] raises its no-data error before it calls the engine.
    The engine has no such check: on a series without rows it returns the
    empty series for a Monthly schedule (and for an unknown frequency),
    and for a Weekly schedule it fails on an unrecognised weekday or else
    on the index of the first date. *)
Theorem empty_series_handling
    (tz : tzinfo) (amount : float) (sched : schedule) :
  main_process tz [] amount sched = Raise ValueError /\
  calculate_sip tz [] amount sched =
    match sched with
    | monthly _ => Ok []
    | weekly freq_val =>
        match strptime_wday freq_val with
        | Ok _ => Raise IndexError
        | Raise e => Raise e
        end
    | other_frequency => Ok []
    end.
Proof.
  split; [reflexivity|].
  destruct sched as [dom|freq_val|]; try reflexivity.
  unfold calculate_sip. cbn [dropna filter init_columns map].
  unfold resolve_investment_dates.
  destruct (strptime_wday freq_val); reflexivity.
Qed.

(** C5 as stated fails: the engine returns a zero-length series as a
    success for a Monthly schedule on a series without rows, and also on
    a series whose only close price is missing. *)
Lemma empty_series_monthly_succeeds :
  calculate_sip fixed_offset [] (of_Z 100) (monthly 1) = Ok [] /\
  calculate_sip fixed_offset [(date 2024 1 2, NaN)] (of_Z 100) (monthly 1) = Ok [].
Proof. split; reflexivity. Qed.

Lemma month_target_out_of_range day_of_month y m :
  1 <= m <= 12 -> ~ 1 <= day_of_month <= 31 ->
  month_target day_of_month (y, m) = month_target 31 (y, m).
Proof.
  intros Hm Hd. pose proof (days_in_month_bounds y Hm) as Hb.
  unfold month_target.
  destruct (Z.leb_spec 1 day_of_month);
    destruct (Z.leb_spec day_of_month (Calendar.days_in_month y m));
    destruct (Z.leb_spec 31 (Calendar.days_in_month y m));
    cbn [andb Z.leb Z.compare Pos.compare Pos.compare_cont];
    try reflexivity; try lia.
  - replace (Calendar.days_in_month y m) with 31 by lia. reflexivity.
  - replace (Calendar.days_in_month y m) with 31 by lia. reflexivity.
Qed.

(** C6, as the code has it.  The engine validates neither the day of the
    month nor the amount.  For every day of the month that is a C [int]
    and every amount a Monthly schedule is computed, and a day outside
    1..31 is taken as the last day of each month, which is what day 31
    gives.  A day that is no C [int] is not rejected as a configuration
    either: on a series without a present close the engine returns the
    empty series as for any other day, and on every other series the date
    constructor fails with an [OverflowError], which the handler of the
    [ValueError] lets through.  Only a weekday string that is no day name
    is rejected, by the parser, before any date is resolved; Saturday and
    Sunday are day names. *)
Theorem configuration_is_not_validated
    (tz : tzinfo) (df : list (Timestamp * float)) (amount : float) :
  (forall day_of_month,
      -2147483648 <= day_of_month <= 2147483647 ->
      exists out, calculate_sip tz df amount (monthly day_of_month) = Ok out) /\
  (forall day_of_month,
      -2147483648 <= day_of_month <= 2147483647 ->
      ~ 1 <= day_of_month <= 31 ->
      calculate_sip tz df amount (monthly day_of_month) =
      calculate_sip tz df amount (monthly 31)) /\
  (forall day_of_month,
      ~ -2147483648 <= day_of_month <= 2147483647 ->
      calculate_sip tz df amount (monthly day_of_month) =
      match dropna df with
      | [] => Ok []
      | _ :: _ => Raise OverflowError
      end) /\
  (forall freq_val,
      strptime_wday freq_val = Raise ValueError ->
      calculate_sip tz df amount (weekly freq_val) = Raise ValueError) /\
  strptime_wday "Saturday" = Ok 5 /\
  strptime_wday "Sunday" = Ok 6.
Proof.
  split; [|split; [|split; [|split; [|split; reflexivity]]]].
  - intros dom Hc. apply c_int_range in Hc.
    unfold calculate_sip.
    rewrite (@monthly_dates tz dom _ Hc). cbn [bind].
    eexists. reflexivity.
  - intros dom Hc Hd. apply c_int_range in Hc.
    unfold calculate_sip.
    rewrite (@monthly_dates tz dom _ Hc), (@monthly_dates tz 31 _ eq_refl).
    do 4 f_equal. apply map_ext_in. intros [y m] Hin.
    apply month_target_out_of_range; [|exact Hd].
    exact (groupby_months _ _ _ Hin).
  - intros dom Hc.
    assert (Hf : c_int dom = false).
    { destruct (c_int dom) eqn:E; [|reflexivity].
      apply c_int_range in E. contradiction. }
    unfold calculate_sip. destruct (dropna df) as [|p l]; [reflexivity|].
    cbn [resolve_investment_dates].
    destruct (groupby_year_month (map Date (init_columns (p :: l))))
      as [|ym groups] eqn:E.
    + apply groupby_nil in E. discriminate E.
    + rewrite (@monthly_loop_overflow dom _ ym groups [] Hf). reflexivity.
  - intros freq_val H. unfold calculate_sip, resolve_investment_dates.
    rewrite H. reflexivity.
Qed.

(** C6 as stated fails: with day of the month 0 and amount -100 the engine
    returns a series, in which the contribution of February 2024 is made
    on the 29th, the last day of the month, with the negative amount. *)
Lemma invalid_configuration_is_computed :
  let df := [(date 2024 2 1, of_Z 10); (date 2024 2 29, of_Z 20)] in
  exists r1 r2 : AccumulatedRow,
    calculate_sip fixed_offset df (of_Z (-100)) (monthly 0) = Ok [r1; r2] /\
    Date r2 = date 2024 2 29 /\
    Invested_Today r1 = zero /\
    Invested_Today r2 = of_Z (-100).
Proof.
  cbv zeta. eexists. eexists. split; [reflexivity|].
  split; [reflexivity|]. split.
  - vm_compute. apply f_equal, Qc_is_canon. reflexivity.
  - vm_compute. apply f_equal, Qc_is_canon. reflexivity.
Qed.

(** ** Worked examples *)

(** Two trading days with closes 10 and 20, both investment dates, and an
    amount of 100: the totals invested are 100 and 200, the shares 10 and
    15, the values 100 and 300, the profits 0 and 100, the percentages 0
    and 50. *)
Lemma two_day_example :
  exists r1 r2 : AccumulatedRow,
    calculate_sip fixed_offset [(date 2024 1 2, of_Z 10); (date 2024 2 1, of_Z 20)]
      (of_Z 100) (monthly 1) = Ok [r1; r2] /\
    map Total_Invested [r1; r2] = [of_Z 100; of_Z 200] /\
    map Total_Shares [r1; r2] = [of_Z 10; of_Z 15] /\
    map Portfolio_Value [r1; r2] = [of_Z 100; of_Z 300] /\
    map Profit [r1; r2] = [zero; of_Z 100] /\
    map Profit_Pct [r1; r2] = [zero; of_Z 50].
Proof.
  eexists. eexists. split; [reflexivity|].
  repeat split; vm_compute;
    repeat (f_equal; try (apply Qc_is_canon; reflexivity)).
Qed.

(** Day 31 in April 2024: the target is 30 April, a trading day here. *)
Lemma day_31_in_april :
  resolve_investment_dates fixed_offset (monthly 31)
    [date 2024 4 29; date 2024 4 30; date 2024 5 2] =
  Ok [date 2024 4 30].
Proof. reflexivity. Qed.

(** A Monday holiday: the contribution of Monday 15 January 2024 is made
    on Tuesday 16, once. *)
Lemma monday_holiday :
  resolve_investment_dates fixed_offset (weekly "Monday")
    [date 2024 1 8; date 2024 1 9; date 2024 1 16; date 2024 1 17] =
  Ok [date 2024 1 8; date 2024 1 16].
Proof. reflexivity. Qed.

(** The weekday parser takes the day names in any letter case. *)
Lemma weekday_names :
  map strptime_wday ["Monday"; "friday"; "SUNDAY"; "Mon"; ""]%string =
  [Ok 0; Ok 4; Ok 6; Raise ValueError; Raise ValueError].
Proof. reflexivity. Qed.

(** * Further properties *)

(** ** Running totals as prefix sums *)

Lemma cumsum_from_app acc l1 l2 :
  cumsum_from acc (l1 ++ l2) =
  cumsum_from acc l1 ++ cumsum_from (running_total acc l1) l2.
Proof.
  revert acc. induction l1 as [|x l1 IH]; intros acc; simpl; [reflexivity|].
  destruct (isna x); simpl; rewrite IH; reflexivity.
Qed.

Lemma running_total_app acc l1 l2 :
  running_total acc (l1 ++ l2) = running_total (running_total acc l1) l2.
Proof.
  revert acc. induction l1 as [|x l1 IH]; intros acc; simpl; [reflexivity|].
  apply IH.
Qed.

Lemma app_eq_length {A} (l1 l1' l2 l2' : list A) :
  l1 ++ l2 = l1' ++ l2' -> List.length l1 = List.length l1' ->
  l1 = l1' /\ l2 = l2'.
Proof.
  revert l1'. induction l1 as [|x l1 IH]; intros [|y l1']; simpl;
    try discriminate; [auto|].
  intros [= -> H] [= Hl]. destruct (IH _ H Hl) as [-> ->]. auto.
Qed.

(** The cumulative columns are prefix sums: on each row, the sum of the
    day's column over the rows up to it. *)
Lemma totals_prefix rows pre r post :
  totals rows = pre ++ r :: post ->
  Total_Invested r =
    (if isna (Invested_Today r) then NaN
     else running_total zero
            (map (fun x : AccumulatedRow => Invested_Today x) (pre ++ [r])))
  /\
  Total_Shares r =
    (if isna (Shares_Bought_Today r) then NaN
     else running_total zero
            (map (fun x : AccumulatedRow => Shares_Bought_Today x)
               (pre ++ [r]))).
Proof.
  intros Hout.
  destruct (totals_columns rows) as (Hb & Hti & Hts).
  rewrite Hout in Hb, Hti, Hts. rewrite <- Hb in Hti, Hts.
  rewrite !map_app in Hti, Hts. cbn [map] in Hti, Hts.
  unfold cumsum in Hti, Hts. rewrite cumsum_from_app in Hti, Hts.
  apply app_eq_length in Hti;
    [|rewrite cumsum_from_length, !length_map; reflexivity].
  apply app_eq_length in Hts;
    [|rewrite cumsum_from_length, !length_map; reflexivity].
  destruct Hti as [_ Hti], Hts as [_ Hts].
  cbn [cumsum_from] in Hti, Hts.
  rewrite !map_app, !running_total_app. cbn [map running_total].
  rewrite <- !(map_map base).
  split.
  - destruct (isna (Invested_Today r)); injection Hti as -> _; reflexivity.
  - destruct (isna (Shares_Bought_Today r)); injection Hts as -> _;
      reflexivity.
Qed.

(** The sum of a column whose cells are [v] on the investment dates and
    zero elsewhere: [v] added once for each of them. *)
Lemma running_total_flags investment_dates (f : AccumulatedRow -> float)
    (v : float) (l : list AccumulatedRow) :
  isna v = false ->
  Forall (fun x => f x = if is_contribution investment_dates x
                         then v else zero) l ->
  forall acc,
    running_total acc (map f l) =
    Nat.iter (contributions investment_dates l)
      (fun total => fadd total v) acc.
Proof.
  intros Hv. unfold contributions.
  induction 1 as [|x l Hx Hl IH]; intros acc;
    cbn [map running_total filter]; [reflexivity|].
  rewrite Hx. destruct (is_contribution investment_dates x).
  - rewrite Hv. cbn [List.length]. rewrite IH, Nat.iter_succ_r.
    reflexivity.
  - cbn [isna zero]. rewrite FloatFacts.fadd_zero_r. apply IH.
Qed.

Lemma running_total_zeros (f : AccumulatedRow -> float)
    (l : list AccumulatedRow) :
  Forall (fun x => f x = zero) l ->
  forall acc, running_total acc (map f l) = acc.
Proof.
  induction 1 as [|x l Hx Hl IH]; intros acc; cbn [map running_total];
    [reflexivity|].
  rewrite Hx. cbn [isna zero]. rewrite FloatFacts.fadd_zero_r. apply IH.
Qed.

(** ** The columns of an output row *)

Lemma output_row_columns tz df amount sched out :
  calculate_sip tz df amount sched = Ok out ->
  exists investment_dates,
    resolve_investment_dates tz sched (map fst (dropna df)) =
      Ok investment_dates /\
    (exists rows, out = totals rows) /\
    forall r : AccumulatedRow, In r out ->
      In (Date r, Close r) (dropna df) /\
      Invested_Today r =
        (if is_contribution investment_dates r then amount else zero) /\
      Shares_Bought_Today r =
        (if is_contribution investment_dates r
         then fdiv amount (Close r) else zero) /\
      Portfolio_Value r = fmul (Total_Shares r) (Close r) /\
      Profit r = fsub (Portfolio_Value r) (Total_Invested r) /\
      Profit_Pct r =
        fillna zero
          (fmul (fdiv (Profit r) (Total_Invested r)) (of_Z 100)).
Proof.
  intros Hout.
  destruct (output_row_source _ _ _ _ Hout) as (inv & Hres & _ & _ & Hrow).
  apply calculate_sip_rows in Hout.
  destruct Hout as (inv' & Hres' & _ & Hout).
  rewrite Hres in Hres'. injection Hres' as <-.
  exists inv. split; [exact Hres|]. split; [eexists; exact Hout|].
  intros r Hr. destruct (Hrow r Hr) as ([d c] & Hp & Hb).
  assert (Hd : r = derive (base r) (Total_Invested r) (Total_Shares r)).
  { rewrite Hout in Hr. exact (zip_rows_derive _ _ _ _ Hr). }
  unfold is_contribution. rewrite Hb. unfold contributed_row. cbn [fst snd].
  destruct (existsb (Z.eqb d) inv) eqn:E; cbn [Date Close Invested_Today
    Shares_Bought_Today]; rewrite E;
    (split; [exact Hp|]); (split; [reflexivity|]);
    (split; [reflexivity|]);
    (split; [rewrite Hd at 1; cbn; rewrite Hb; unfold contributed_row;
             cbn [fst snd]; rewrite E; reflexivity|]);
    (split; [rewrite Hd at 1 2; reflexivity|]);
    rewrite Hd at 1 2; reflexivity.
Qed.

(** ** The total invested *)

(** The engine run on a concrete series, for the instances below. *)
Ltac engine_result H :=
  match goal with
  | |- exists out, ?run = Ok out /\ _ =>
      assert (H : {out | run = Ok out})
        by (eexists; vm_compute; reflexivity);
      destruct H as [out H]; exists out; split; [exact H|]
  end.

Lemma prefix_rows_in {A} (pre post : list A) (r x : A) :
  In x (pre ++ [r]) -> In x (pre ++ r :: post).
Proof.
  intros Hx. apply in_app_or in Hx. apply in_or_app.
  destruct Hx as [Hx|[<-|[]]]; [left; exact Hx|right; left; reflexivity].
Qed.

(** The total invested on a row, once the dates are resolved. *)
Lemma total_invested_prefix tz df amount sched out investment_dates
    pre (r : AccumulatedRow) post :
  isna amount = false ->
  calculate_sip tz df amount sched = Ok out ->
  resolve_investment_dates tz sched (map fst (dropna df)) =
    Ok investment_dates ->
  out = pre ++ r :: post ->
  Total_Invested r =
    amount_added (contributions investment_dates (pre ++ [r])) amount.
Proof.
  intros Hamount Hout Hresolved Hsplit.
  destruct (output_row_columns _ _ _ _ Hout)
    as (inv & Hres & (rows & Hrows) & Hrow).
  rewrite Hresolved in Hres. injection Hres as <-.
  rewrite Hrows in Hsplit, Hrow.
  destruct (totals_prefix _ _ _ _ Hsplit) as [Hti _].
  rewrite Hsplit in Hrow.
  destruct (Hrow r) as (_ & Hinv & _); [apply in_elt|].
  assert (Hna : isna (Invested_Today r) = false).
  { rewrite Hinv.
    destruct (is_contribution investment_dates r);
      [exact Hamount|reflexivity]. }
  rewrite Hna in Hti. rewrite Hti.
  apply (@running_total_flags investment_dates _ amount _ Hamount).
  apply Forall_forall. intros x Hx.
  apply (Hrow x). apply prefix_rows_in. exact Hx.
Qed.

(** X1.  With an amount that is not missing, the total invested on a row
    is the amount added to 0, one addition after the other, once for
    every contribution day up to and including that row. *)
Theorem total_invested_counts_contributions
    (tz : tzinfo) (df : list (Timestamp * float)) (amount : float)
    (sched : schedule) (out : list AccumulatedRow)
    (Hamount : isna amount = false)
    (Hout : calculate_sip tz df amount sched = Ok out) :
  exists investment_dates,
    resolve_investment_dates tz sched (map fst (dropna df)) =
      Ok investment_dates /\
    forall pre r post,
      out = pre ++ r :: post ->
      Total_Invested r =
        amount_added (contributions investment_dates (pre ++ [r])) amount.
Proof.
  destruct (output_row_columns _ _ _ _ Hout) as (inv & Hres & _).
  exists inv. split; [exact Hres|].
  intros pre r post Hsplit.
  exact (@total_invested_prefix tz df amount sched out inv pre r post
           Hamount Hout Hres Hsplit).
Qed.

Lemma total_invested_counts_contributions_witness :
  exists out,
    calculate_sip fixed_offset
      [(date 2024 1 2, of_Z 10); (date 2024 2 1, of_Z 20)]
      (of_Z 100) (monthly 1) = Ok out /\
    exists investment_dates,
      resolve_investment_dates fixed_offset (monthly 1)
        (map fst (dropna [(date 2024 1 2, of_Z 10);
                          (date 2024 2 1, of_Z 20)])) =
        Ok investment_dates /\
      forall pre r post,
        out = pre ++ r :: post ->
        Total_Invested r =
          amount_added (contributions investment_dates (pre ++ [r]))
            (of_Z 100).
Proof.
  engine_result Hout.
  exact (@total_invested_counts_contributions fixed_offset
           [(date 2024 1 2, of_Z 10); (date 2024 2 1, of_Z 20)]
           (of_Z 100) (monthly 1) out eq_refl Hout).
Defined.

Lemma fsub_self_finite x : fsub (Fin x) (Fin x) = zero.
Proof. unfold fsub, zero. cbn. f_equal. apply Qcplus_opp_r. Qed.

(** X3.  Before the first contribution nothing is held: on a row up to
    which there is no contribution day, the amount invested that day, the
    two totals and the profit percentage are 0, and so are the portfolio
    value and the profit where the close of the day is finite. *)
Theorem nothing_is_held_before_the_first_contribution
    (tz : tzinfo) (df : list (Timestamp * float)) (amount : float)
    (sched : schedule) (out : list AccumulatedRow)
    (Hout : calculate_sip tz df amount sched = Ok out) :
  exists investment_dates,
    resolve_investment_dates tz sched (map fst (dropna df)) =
      Ok investment_dates /\
    forall pre r post,
      out = pre ++ r :: post ->
      contributions investment_dates (pre ++ [r]) = 0%nat ->
      Invested_Today r = zero /\
      Total_Invested r = zero /\ Total_Shares r = zero /\
      Profit_Pct r = zero /\
      forall c : Qc,
        Close r = Fin c -> Portfolio_Value r = zero /\ Profit r = zero.
Proof.
  destruct (output_row_columns _ _ _ _ Hout)
    as (inv & Hres & (rows & Hrows) & Hrow).
  exists inv. split; [exact Hres|]. intros pre r post Hsplit Hnone.
  rewrite Hrows in Hsplit, Hrow.
  destruct (totals_prefix _ _ _ _ Hsplit) as [Hti Hts].
  rewrite Hsplit in Hrow.
  assert (Hno : forall x, In x (pre ++ [r]) -> is_contribution inv x = false).
  { intros x Hx. destruct (is_contribution inv x) eqn:E; [|reflexivity].
    exfalso. unfold contributions in Hnone.
    assert (Hin : In x (filter (is_contribution inv) (pre ++ [r])))
      by (apply filter_In; auto).
    destruct (filter (is_contribution inv) (pre ++ [r])); [destruct Hin|].
    discriminate Hnone. }
  assert (Hcells : forall x, In x (pre ++ [r]) ->
             Invested_Today x = zero /\ Shares_Bought_Today x = zero).
  { intros x Hx.
    destruct (Hrow x (prefix_rows_in _ _ _ _ Hx)) as (_ & Hi & Hs & _).
    rewrite (Hno x Hx) in Hi, Hs. auto. }
  destruct (Hrow r) as (_ & _ & _ & Hpv & Hp & Hpct); [apply in_elt|].
  destruct (Hcells r) as [Hinv Hsh];
    [apply in_or_app; right; left; reflexivity|].
  rewrite Hinv in Hti. rewrite Hsh in Hts. cbn [isna zero] in Hti, Hts.
  rewrite running_total_zeros in Hti, Hts
    by (apply Forall_forall; intros x Hx; apply (Hcells x Hx)).
  change (Fin 0%Qc) with zero in Hti, Hts.
  split; [exact Hinv|]. split; [exact Hti|]. split; [exact Hts|]. split.
  - rewrite Hpct, Hp, Hpv, Hti, Hts.
    destruct (fmul_zero_l (Close r)) as [-> | ->]; reflexivity.
  - intros c Hc.
    assert (Hvalue : Portfolio_Value r = zero).
    { rewrite Hpv, Hts, Hc. unfold zero. cbn [fmul]. f_equal.
      apply Qcmult_0_l. }
    split; [exact Hvalue|].
    rewrite Hp, Hvalue, Hti. apply fsub_self_finite.
Qed.

Lemma nothing_is_held_before_the_first_contribution_witness :
  exists out,
    calculate_sip fixed_offset
      [(date 2024 1 2, of_Z 10); (date 2024 1 15, of_Z 20)]
      (of_Z 100) (monthly 15) = Ok out /\
    exists investment_dates,
      resolve_investment_dates fixed_offset (monthly 15)
        (map fst (dropna [(date 2024 1 2, of_Z 10);
                          (date 2024 1 15, of_Z 20)])) =
        Ok investment_dates /\
      forall pre r post,
        out = pre ++ r :: post ->
        contributions investment_dates (pre ++ [r]) = 0%nat ->
        Invested_Today r = zero /\
        Total_Invested r = zero /\ Total_Shares r = zero /\
        Profit_Pct r = zero /\
        forall c : Qc,
          Close r = Fin c -> Portfolio_Value r = zero /\ Profit r = zero.
Proof.
  engine_result Hout.
  exact (@nothing_is_held_before_the_first_contribution fixed_offset
           [(date 2024 1 2, of_Z 10); (date 2024 1 15, of_Z 20)]
           (of_Z 100) (monthly 15) out Hout).
Defined.

(** ** The roll-forward and the two schedules *)

Lemma next_trading_day_self target_date trading_days :
  Sorted Z.le trading_days -> In target_date trading_days ->
  get_next_trading_day target_date trading_days = Some target_date.
Proof.
  intros Hs Hin.
  destruct (get_next_trading_day target_date trading_days) as [d|] eqn:E.
  - pose proof (proj1 (next_trading_day_split _ _ E)) as Hle.
    pose proof (@next_trading_day_least _ _ _ Hs E target_date Hin
                  (Z.le_refl _)).
    f_equal. unfold Timestamp in *. lia.
  - pose proof (proj1 (next_trading_day_none _ _) E target_date Hin).
    unfold Timestamp in *. lia.
Qed.

Lemma next_trading_day_monotone t1 t2 d2 trading_days :
  Sorted Z.le trading_days -> t1 <= t2 ->
  get_next_trading_day t2 trading_days = Some d2 ->
  exists d1,
    get_next_trading_day t1 trading_days = Some d1 /\ t1 <= d1 <= d2.
Proof.
  intros Hascending Hle Hresolved.
  pose proof (next_trading_day_in _ _ Hresolved) as Hin.
  pose proof (proj1 (next_trading_day_split _ _ Hresolved)) as Hle2.
  destruct (get_next_trading_day t1 trading_days) as [d1|] eqn:E.
  - exists d1. split; [reflexivity|].
    pose proof (proj1 (next_trading_day_split _ _ E)).
    assert (t1 <= d2) by (unfold Timestamp in *; lia).
    pose proof (@next_trading_day_least _ _ _ Hascending E d2 Hin H0).
    unfold Timestamp in *. lia.
  - pose proof (proj1 (next_trading_day_none _ _) E d2 Hin).
    unfold Timestamp in *. lia.
Qed.

(** X6.  On an ascending list of trading days the roll-forward keeps the
    order of its targets: where a target resolves, every earlier target
    resolves too, to a day that is not later; and a target that is a
    trading day resolves to itself. *)
Theorem roll_forward_is_monotone
    (t1 t2 d2 : Timestamp) (trading_days : list Timestamp)
    (Hascending : Sorted Z.le trading_days)
    (Hle : t1 <= t2)
    (Hresolved : get_next_trading_day t2 trading_days = Some d2) :
  (exists d1,
      get_next_trading_day t1 trading_days = Some d1 /\ t1 <= d1 <= d2) /\
  get_next_trading_day d2 trading_days = Some d2.
Proof.
  split.
  - exact (next_trading_day_monotone Hascending Hle Hresolved).
  - apply next_trading_day_self; [exact Hascending|].
    exact (next_trading_day_in _ _ Hresolved).
Qed.

Lemma roll_forward_is_monotone_witness :
  (exists d1,
      get_next_trading_day (date 2024 1 3)
        [date 2024 1 2; date 2024 1 4; date 2024 1 8] = Some d1 /\
      date 2024 1 3 <= d1 <= date 2024 1 8) /\
  get_next_trading_day (date 2024 1 8)
    [date 2024 1 2; date 2024 1 4; date 2024 1 8] = Some (date 2024 1 8).
Proof.
  refine (@roll_forward_is_monotone (date 2024 1 3) (date 2024 1 6)
            (date 2024 1 8) [date 2024 1 2; date 2024 1 4; date 2024 1 8]
            _ _ eq_refl).
  - repeat constructor; vm_compute; discriminate.
  - vm_compute. discriminate.
Defined.

Lemma output_dates_are_trading_days tz df amount sched out :
  calculate_sip tz df amount sched = Ok out ->
  forall r : AccumulatedRow, In r out -> In (Date r) (map fst (dropna df)).
Proof.
  intros Hout r Hr.
  destruct (output_row_columns _ _ _ _ Hout) as (inv & _ & _ & Hrow).
  destruct (Hrow r Hr) as (Hp & _).
  apply (in_map fst) in Hp. exact Hp.
Qed.

(** X7.  Monthly schedule on an ascending series: a trading day that is
    the target of its own month (the chosen day of the month, or the
    month's last day where the month lacks it) receives the contribution
    of that month. *)
Theorem monthly_target_day_receives_contribution
    (tz : tzinfo) (df : list (Timestamp * float)) (amount : float)
    (day_of_month : Z) (out : list AccumulatedRow)
    (Hascending : Sorted Z.le (map fst (dropna df)))
    (Hout : calculate_sip tz df amount (monthly day_of_month) = Ok out) :
  forall r : AccumulatedRow,
    In r out ->
    Date r = month_target day_of_month (year (Date r), month (Date r)) ->
    Invested_Today r = amount /\
    Shares_Bought_Today r = fdiv amount (Close r).
Proof.
  intros r Hr Htarget.
  pose proof (output_dates_are_trading_days _ _ _ _ Hout r Hr) as Hday.
  destruct (output_row_columns _ _ _ _ Hout) as (inv & Hres & _ & Hrow).
  destruct (Hrow r Hr) as (_ & Hinv & Hsh & _).
  apply monthly_dates_resolved in Hres. subst inv.
  assert (E : is_contribution
                (dedup (roll_forward_all (map fst (dropna df))
                   (map (month_target day_of_month)
                      (groupby_year_month (map fst (dropna df)))))) r
              = true).
  { apply existsb_eqb_In, dedup_In, roll_forward_all_In.
    exists (Date r). split.
    - rewrite Htarget at 1. apply in_map. apply groupby_In.
      exists (Date r). auto.
    - apply next_trading_day_self; assumption. }
  rewrite E in Hinv, Hsh. auto.
Qed.

Lemma monthly_target_day_receives_contribution_witness :
  exists out,
    calculate_sip fixed_offset
      [(date 2024 1 2, of_Z 10); (date 2024 1 15, of_Z 20)]
      (of_Z 100) (monthly 15) = Ok out /\
    forall r : AccumulatedRow,
      In r out ->
      Date r = month_target 15 (year (Date r), month (Date r)) ->
      Invested_Today r = of_Z 100 /\
      Shares_Bought_Today r = fdiv (of_Z 100) (Close r).
Proof.
  engine_result Hout.
  refine (@monthly_target_day_receives_contribution fixed_offset
            [(date 2024 1 2, of_Z 10); (date 2024 1 15, of_Z 20)]
            (of_Z 100) 15 out _ Hout).
  repeat constructor. vm_compute. discriminate.
Defined.


Lemma weekly_dates_without_clock_change tz freq_val target_weekday
    first rest :
  strptime_wday freq_val = Ok target_weekday ->
  (forall t, clock_change tz t = 0) ->
  resolve_investment_dates tz (weekly freq_val) (first :: rest) =
  Ok (dedup (roll_forward_all (first :: rest)
               (filter (fun d => weekday d =? target_weekday)
                  (calendar_days first (last (first :: rest) first))))).
Proof.
  intros Hwd Htz. unfold resolve_investment_dates. rewrite Hwd. cbn [bind].
  unfold calendar_days.
  erewrite weekly_loop_record by (try reflexivity; exact Htz).
  rewrite record_targets_nil. reflexivity.
Qed.



(** ** Counting the contributions *)

Lemma weekday_range t : 0 <= weekday t <= 6.
Proof. unfold weekday. lia. Qed.

Lemma strptime_wday_range s wd : strptime_wday s = Ok wd -> 0 <= wd <= 6.
Proof.
  unfold strptime_wday, day_name. cbn [index_from].
  repeat (destruct (String.eqb (lowercase s) _); [intros [= <-]; lia|]).
  discriminate.
Qed.

(** The days of one weekday among [n] calendar days in a row: one for
    every seven, from the first of them on. *)
Lemma weekday_count wd n :
  0 <= wd <= 6 ->
  forall first,
    Z.of_nat (List.length (filter (fun d => weekday d =? wd)
                             (days_from first n))) =
    (Z.of_nat n + 6 - (wd - weekday first) mod 7) / 7.
Proof.
  intros Hwd. induction n as [|n IH]; intros first.
  - cbn [days_from filter List.length]. lia.
  - cbn [days_from filter]. pose proof (IH (first + 86400)) as IHn.
    rewrite weekday_next in IHn.
    pose proof (weekday_range first) as Hw.
    set (w := weekday first) in *.
    assert (Hnext : (wd - (w + 1) mod 7) mod 7 =
                    if w =? wd then 6 else (wd - w) mod 7 - 1).
    { destruct (Z.eqb_spec w wd); lia. }
    rewrite Hnext in IHn. rewrite Nat2Z.inj_succ.
    destruct (Z.eqb_spec w wd) as [E|E].
    + cbn [List.length]. rewrite Nat2Z.inj_succ, IHn.
      replace ((wd - w) mod 7) with 0 by lia. lia.
    + rewrite IHn. assert (0 < (wd - w) mod 7) by lia. lia.
Qed.

(** X9.  Weekly schedule in a zone whose clocks are not changed, on a
    series whose last date is not before its first: there is at most one
    investment date for every week begun between the first and the last
    trading day. *)
Theorem weekly_contributions_at_most_one_per_week
    (tz : tzinfo) (freq_val : string)
    (first : Timestamp) (rest investment_dates : list Timestamp)
    (Htz : forall t, clock_change tz t = 0)
    (Hspan : first <= last (first :: rest) first)
    (Hresolved :
       resolve_investment_dates tz (weekly freq_val) (first :: rest) =
       Ok investment_dates) :
  Z.of_nat (List.length investment_dates) <=
  (last (first :: rest) first - first) / 86400 / 7 + 1.
Proof.
  destruct (strptime_wday freq_val) as [wd|e] eqn:Hwd.
  2:{ unfold resolve_investment_dates in Hresolved.
      rewrite Hwd in Hresolved. discriminate Hresolved. }
  rewrite (@weekly_dates_without_clock_change tz freq_val wd first rest
             Hwd Htz) in Hresolved.
  injection Hresolved as Einv. rewrite <- Einv.
  cbn [last] in Hspan |- *.
  set (end_date := match rest with
                   | [] => first
                   | _ :: _ => last rest first
                   end) in *.
  apply Z.le_trans with
    (Z.of_nat (List.length (filter (fun d => weekday d =? wd)
                              (calendar_days first end_date)))).
  - apply Nat2Z.inj_le. eapply Nat.le_trans; [apply dedup_length|].
    apply roll_forward_all_length.
  - unfold calendar_days.
    rewrite (@weekday_count wd _ (strptime_wday_range _ Hwd)).
    assert (0 <= (wd - weekday first) mod 7 < 7) by lia.
    unfold Timestamp in *. lia.
Qed.

Lemma weekly_contributions_at_most_one_per_week_witness :
  exists investment_dates,
    resolve_investment_dates fixed_offset (weekly "Monday")
      [date 2024 1 5; date 2024 1 8; date 2024 1 15] =
      Ok investment_dates /\
    Z.of_nat (List.length investment_dates) <=
    (last [date 2024 1 5; date 2024 1 8; date 2024 1 15] (date 2024 1 5)
     - date 2024 1 5) / 86400 / 7 + 1.
Proof.
  assert (Hres : {inv | resolve_investment_dates fixed_offset
                          (weekly "Monday")
                          [date 2024 1 5; date 2024 1 8; date 2024 1 15] =
                        Ok inv})
    by (eexists; vm_compute; reflexivity).
  destruct Hres as [inv Hres]. exists inv. split; [exact Hres|].
  refine (@weekly_contributions_at_most_one_per_week fixed_offset "Monday"
            (date 2024 1 5) [date 2024 1 8; date 2024 1 15] inv
            (fun _ => eq_refl) _ Hres).
  vm_compute. discriminate.
Defined.

(** X10.  A frequency type that is neither 'monthly' nor 'weekly' is not
    an error for the engine: it returns the series of the present closes
    with no contribution at all, every total at zero and every profit
    percentage at zero. *)
Theorem unknown_frequency_invests_nothing
    (tz : tzinfo) (df : list (Timestamp * float)) (amount : float) :
  exists out,
    calculate_sip tz df amount other_frequency = Ok out /\
    map (fun r : AccumulatedRow => (Date r, Close r)) out = dropna df /\
    forall r : AccumulatedRow,
      In r out ->
      Invested_Today r = zero /\ Shares_Bought_Today r = zero /\
      Total_Invested r = zero /\ Total_Shares r = zero /\
      Profit_Pct r = zero.
Proof.
  assert (Hout : calculate_sip tz df amount other_frequency =
                 Ok (totals (init_columns (dropna df)))) by reflexivity.
  exists (totals (init_columns (dropna df))). split; [exact Hout|].
  split.
  { destruct (totals_columns (init_columns (dropna df))) as (Hb & _).
    rewrite <- (map_map base (fun r : Row => (Date r, Close r))), Hb.
    unfold init_columns. rewrite map_map. cbn [Date Close].
    rewrite <- (map_id (dropna df)) at 2. apply map_ext.
    intros [d c]. reflexivity. }
  destruct (output_row_columns _ _ _ _ Hout)
    as (inv & Hres & _ & Hrow).
  injection Hres as <-.
  intros r Hr. destruct (in_split _ _ Hr) as (pre & post & Hsplit).
  destruct (totals_prefix _ _ _ _ Hsplit) as [Hti Hts].
  destruct (Hrow r Hr) as (_ & Hinv & Hsh & Hpv & Hp & Hpct).
  cbn [is_contribution existsb] in Hinv, Hsh.
  rewrite Hinv in Hti. rewrite Hsh in Hts. cbn [isna zero] in Hti, Hts.
  rewrite running_total_zeros in Hti, Hts.
  2:{ apply Forall_forall. intros x Hx. apply (Hrow x).
      rewrite Hsplit. apply prefix_rows_in. exact Hx. }
  2:{ apply Forall_forall. intros x Hx. apply (Hrow x).
      rewrite Hsplit. apply prefix_rows_in. exact Hx. }
  repeat (split; [assumption|]).
  change (Fin 0%Qc) with zero in Hti, Hts.
  rewrite Hpct, Hp, Hpv, Hti, Hts.
  destruct (fmul_zero_l (Close r)) as [-> | ->]; reflexivity.
Qed.

(** ** The order of the investment dates *)

Module CalendarOrder.
Import Calendar.

Lemma days_before_next_year y :
  days_before_year (y + 1) = days_before_year y + 365 + b2z (is_leap y).
Proof.
  unfold days_before_year, is_leap, b2z.
  replace (y + 1 - 1) with y by lia.
  CalendarFacts.eqb_cases; cbv [andb orb negb]; lia.
Qed.

Lemma days_before_year_mono y y' :
  y <= y' -> days_before_year y <= days_before_year y'.
Proof. unfold days_before_year. lia. Qed.

Lemma month_ends_in_year leap m :
  1 <= m <= 12 -> month_offset leap m + month_length leap m <= 365 + b2z leap.
Proof.
  intros Hm. apply CalendarFacts.month_cases in Hm.
  repeat (destruct Hm as [->|Hm]); try subst m; destruct leap;
    vm_compute; discriminate.
Qed.

Lemma month_ends_before_next leap m :
  1 <= m -> m + 1 <= 12 ->
  month_offset leap m + month_length leap m = month_offset leap (m + 1).
Proof.
  intros H1 H2. assert (Hm : 1 <= m <= 12) by lia.
  apply CalendarFacts.month_cases in Hm.
  repeat (destruct Hm as [->|Hm]); try subst m; destruct leap;
    try reflexivity; exfalso; lia.
Qed.

Lemma month_offset_mono leap m m' :
  1 <= m -> m <= m' -> m' <= 12 ->
  month_offset leap m <= month_offset leap m'.
Proof.
  intros H1 Hle H12.
  assert (Hm : 1 <= m <= 12) by lia. assert (Hm' : 1 <= m' <= 12) by lia.
  apply CalendarFacts.month_cases in Hm, Hm'.
  repeat (destruct Hm as [->|Hm]); try subst m;
    repeat (destruct Hm' as [->|Hm']); try subst m'; destruct leap;
    try (vm_compute; discriminate); exfalso; lia.
Qed.

(** A day of an earlier month comes before every day of a later month. *)
Lemma ymd2ord_months y m d y' m' d' :
  1 <= m <= 12 -> 1 <= m' <= 12 ->
  d <= days_in_month y m -> 1 <= d' ->
  y < y' \/ (y = y' /\ m < m') ->
  ymd2ord y m d < ymd2ord y' m' d'.
Proof.
  intros Hm Hm' Hd Hd' Hlt.
  unfold ymd2ord, days_before_month, days_in_month in *.
  destruct Hlt as [Hy|[<- Hmm]].
  - pose proof (month_ends_in_year (is_leap y) Hm).
    pose proof (days_before_next_year y).
    pose proof (@days_before_year_mono (y + 1) y' ltac:(lia)).
    assert (0 <= month_offset (is_leap y') m').
    { pose proof (@month_offset_mono (is_leap y') 1 m'
                    ltac:(lia) ltac:(lia) ltac:(lia)) as H2.
      destruct (is_leap y'); exact H2. }
    lia.
  - pose proof (@month_ends_before_next (is_leap y) m ltac:(lia) ltac:(lia)).
    pose proof (@month_offset_mono (is_leap y) (m + 1) m'
                  ltac:(lia) ltac:(lia) ltac:(lia)).
    lia.
Qed.

End CalendarOrder.

Lemma month_target_ascending day_of_month a b :
  1 <= snd a <= 12 -> 1 <= snd b <= 12 -> ym_lt a b ->
  month_target day_of_month a < month_target day_of_month b.
Proof.
  destruct a as [y m], b as [y' m']. cbn [snd]. intros Hm Hm' Hlt.
  assert (Hcases : y < y' \/ (y = y' /\ m < m')).
  { unfold ym_lt, ym_ltb in Hlt. cbn [fst snd] in Hlt.
    apply orb_true_iff in Hlt. destruct Hlt as [H|H].
    - left. apply Z.ltb_lt. exact H.
    - apply andb_true_iff in H. destruct H as [H1 H2].
      right. split; [apply Z.eqb_eq; exact H1|apply Z.ltb_lt; exact H2]. }
  pose proof (days_in_month_bounds y Hm) as Hb.
  pose proof (days_in_month_bounds y' Hm') as Hb'.
  unfold month_target, date, midnight.
  assert (Hord : forall d d',
             d <= Calendar.days_in_month y m -> 1 <= d' ->
             86400 * Calendar.ymd2ord y m d <
             86400 * Calendar.ymd2ord y' m' d').
  { intros d d' Hd Hd'.
    pose proof (@CalendarOrder.ymd2ord_months y m d y' m' d'
                  Hm Hm' Hd Hd' Hcases).
    lia. }
  destruct (Z.leb_spec 1 day_of_month);
    destruct (Z.leb_spec day_of_month (Calendar.days_in_month y m));
    destruct (Z.leb_spec day_of_month (Calendar.days_in_month y' m'));
    cbn [andb]; apply Hord; lia.
Qed.

Lemma StronglySorted_map_keys day_of_month keys :
  (forall k, In k keys -> 1 <= snd k <= 12) ->
  StronglySorted ym_lt keys ->
  StronglySorted Z.le (map (month_target day_of_month) keys).
Proof.
  intros Hm. induction 1 as [|k l Hs IH Hall]; cbn [map]; constructor.
  - apply IH. intros k' Hk'. apply Hm. right. exact Hk'.
  - rewrite Forall_forall in *. intros t Ht. apply in_map_iff in Ht.
    destruct Ht as (k' & <- & Hk').
    apply Z.lt_le_incl, month_target_ascending.
    + apply Hm. left. reflexivity.
    + apply Hm. right. exact Hk'.
    + exact (Hall k' Hk').
Qed.

Lemma filter_StronglySorted {A} (R : A -> A -> Prop) (f : A -> bool) l :
  StronglySorted R l -> StronglySorted R (filter f l).
Proof.
  induction 1 as [|x l Hs IH Hall]; cbn [filter]; [constructor|].
  destruct (f x); [|exact IH]. constructor; [exact IH|].
  rewrite Forall_forall in *. intros y Hy. apply filter_In in Hy.
  apply Hall. tauto.
Qed.

Lemma dedup_ascending l :
  StronglySorted Z.le l -> StronglySorted Z.lt (dedup l).
Proof.
  induction 1 as [|d l Hs IH Hall]; cbn [dedup]; constructor.
  - apply filter_StronglySorted. exact IH.
  - rewrite Forall_forall in *. intros x Hx. apply filter_In in Hx.
    destruct Hx as [Hx Hne]. apply (proj1 (dedup_In _ _)) in Hx.
    pose proof (Hall x Hx). apply negb_true_iff, Z.eqb_neq in Hne.
    unfold Timestamp in *. lia.
Qed.

Lemma roll_forward_all_ascending trading_days targets :
  Sorted Z.le trading_days ->
  StronglySorted Z.le targets ->
  StronglySorted Z.le (roll_forward_all trading_days targets).
Proof.
  intros Hdays. unfold roll_forward_all.
  induction 1 as [|t l Hs IH Hall]; cbn [flat_map]; [constructor|].
  destruct (get_next_trading_day t trading_days) as [d|] eqn:E;
    cbn [app]; [|exact IH].
  constructor; [exact IH|].
  rewrite Forall_forall in *. intros d' Hd'.
  apply (roll_forward_all_In trading_days l d') in Hd'.
  destruct Hd' as (t' & Ht' & E').
  destruct (next_trading_day_monotone Hdays (Hall t' Ht') E')
    as (d1 & E1 & Hle).
  rewrite E in E1. injection E1 as <-. tauto.
Qed.

(** The timestamps that the weekly loop visits come in ascending order,
    whatever the zone. *)
Lemma weekly_loop_ascending_targets tz target_weekday trading_days
    end_date n :
  forall current_date,
    (Z.to_nat (end_date + 1 - current_date) <= n)%nat ->
    exists targets,
      StronglySorted Z.le targets /\
      Forall (Z.le current_date) targets /\
      forall investment_dates,
        weekly_loop tz target_weekday trading_days end_date current_date
          investment_dates =
        record_targets trading_days targets investment_dates.
Proof.
  induction n as [|n IH]; intros cur Hn.
  - exists []. split; [constructor|]. split; [constructor|].
    intros inv. simp weekly_loop.
    destruct (Z_le_dec cur end_date); [lia|reflexivity].
  - destruct (Z_le_dec cur end_date) as [Hle|Hgt].
    + pose proof (clock_change_bound tz cur) as Hcc.
      destruct (IH (add_one_day tz cur)) as (targets & Hs & Hall & Ht).
      { unfold add_one_day. lia. }
      assert (Hall' : Forall (Z.le cur) targets).
      { eapply Forall_impl; [|exact Hall]. intros t. unfold add_one_day.
        unfold Timestamp in *. lia. }
      exists (if weekday cur =? target_weekday then cur :: targets
              else targets).
      split; [|split].
      * destruct (weekday cur =? target_weekday);
          [constructor|]; assumption.
      * destruct (weekday cur =? target_weekday); [|exact Hall'].
        constructor; [apply Z.le_refl|exact Hall'].
      * intros inv. simp weekly_loop.
        destruct (Z_le_dec cur end_date); [|contradiction]. simpl.
        rewrite Ht. destruct (weekday cur =? target_weekday); reflexivity.
    + exists []. split; [constructor|]. split; [constructor|].
      intros inv. simp weekly_loop.
      destruct (Z_le_dec cur end_date); [contradiction|reflexivity].
Qed.

(** X11.  On an ascending list of trading days the resolver lists the
    investment dates in strictly ascending order, for every schedule and
    every zone. *)
Theorem investment_dates_are_ascending
    (tz : tzinfo) (sched : schedule)
    (trading_days investment_dates : list Timestamp)
    (Hascending : Sorted Z.le trading_days)
    (Hresolved :
       resolve_investment_dates tz sched trading_days =
       Ok investment_dates) :
  StronglySorted Z.lt investment_dates.
Proof.
  destruct sched as [dom|freq_val|].
  - apply monthly_dates_resolved in Hresolved. subst investment_dates.
    apply dedup_ascending, roll_forward_all_ascending; [exact Hascending|].
    apply StronglySorted_map_keys; [|apply groupby_sorted].
    intros [y m] Hk. exact (groupby_months _ _ _ Hk).
  - unfold resolve_investment_dates in Hresolved.
    destruct (strptime_wday freq_val) as [wd|]; cbn [bind] in Hresolved;
      [|discriminate].
    destruct trading_days as [|first rest]; [discriminate|].
    injection Hresolved as <-.
    destruct (@weekly_loop_ascending_targets tz wd (first :: rest)
                (last (first :: rest) first) _ first (Nat.le_refl _))
      as (targets & Hs & _ & Ht).
    cbn [last] in Ht |- *. rewrite Ht, record_targets_nil.
    apply dedup_ascending, roll_forward_all_ascending; assumption.
  - injection Hresolved as <-. constructor.
Qed.

Lemma investment_dates_are_ascending_witness :
  exists investment_dates,
    resolve_investment_dates US_Eastern_2024 (weekly "Monday")
      [date 2024 3 4; date 2024 3 8; date 2024 3 11; date 2024 3 12] =
      Ok investment_dates /\
    StronglySorted Z.lt investment_dates.
Proof.
  assert (Hres : {inv | resolve_investment_dates US_Eastern_2024
                          (weekly "Monday")
                          [date 2024 3 4; date 2024 3 8; date 2024 3 11;
                           date 2024 3 12] = Ok inv})
    by (eexists; vm_compute; reflexivity).
  destruct Hres as [inv Hres]. exists inv. split; [exact Hres|].
  refine (@investment_dates_are_ascending US_Eastern_2024
            (weekly "Monday") _ inv _ Hres).
  repeat constructor; vm_compute; discriminate.
Defined.

(** ** The frequency prompts *)

Module StringFacts.

Ltac ascii_cases c :=
  destruct c as [[] [] [] [] [] [] [] []]; vm_compute; reflexivity.

Lemma isspace_lower c : isspace (lower c) = isspace c.
Proof. ascii_cases c. Qed.

Lemma is_digit_lower c : is_digit (lower c) = is_digit c.
Proof. ascii_cases c. Qed.

Lemma lower_lower c : lower (lower c) = lower c.
Proof. ascii_cases c. Qed.

Lemma upper_lower c : upper (lower c) = upper c.
Proof. ascii_cases c. Qed.

Lemma lower_upper c : lower (upper c) = lower c.
Proof. ascii_cases c. Qed.

Lemma lower_digit c : is_digit c = true -> lower c = c.
Proof.
  destruct c as [[] [] [] [] [] [] [] []]; vm_compute;
    (reflexivity || discriminate).
Qed.

Lemma lowercase_lowercase s : lowercase (lowercase s) = lowercase s.
Proof.
  induction s as [|c s IH]; cbn [lowercase]; [reflexivity|].
  rewrite lower_lower, IH. reflexivity.
Qed.

Lemma lowercase_lstrip s : lowercase (lstrip s) = lstrip (lowercase s).
Proof.
  induction s as [|c s IH]; cbn [lowercase lstrip]; [reflexivity|].
  rewrite isspace_lower. destruct (isspace c); [exact IH|reflexivity].
Qed.

Lemma lowercase_rstrip s : lowercase (rstrip s) = rstrip (lowercase s).
Proof.
  induction s as [|c s IH]; cbn [lowercase rstrip]; [reflexivity|].
  rewrite <- IH, isspace_lower.
  destruct (rstrip s) as [|c' r]; cbn [lowercase]; [|reflexivity].
  destruct (isspace c); reflexivity.
Qed.

Lemma lowercase_strip s : lowercase (strip s) = strip (lowercase s).
Proof.
  unfold strip. rewrite lowercase_rstrip, lowercase_lstrip. reflexivity.
Qed.

Lemma capitalize_lowercase s : capitalize (lowercase s) = capitalize s.
Proof.
  destruct s as [|c s]; cbn [capitalize lowercase]; [reflexivity|].
  rewrite upper_lower, lowercase_lowercase. reflexivity.
Qed.

Lemma lowercase_capitalize s : lowercase (capitalize s) = lowercase s.
Proof.
  destruct s as [|c s]; cbn [capitalize lowercase]; [reflexivity|].
  rewrite lower_upper, lowercase_lowercase. reflexivity.
Qed.

Lemma lowercase_digits s : all_digits s = true -> lowercase s = s.
Proof.
  induction s as [|c s IH]; cbn [all_digits lowercase]; [reflexivity|].
  intros H. apply andb_true_iff in H. destruct H as [Hc Hs].
  rewrite (lower_digit _ Hc), (IH Hs). reflexivity.
Qed.

Lemma all_digits_lowercase s : all_digits (lowercase s) = all_digits s.
Proof.
  induction s as [|c s IH]; cbn [all_digits lowercase]; [reflexivity|].
  rewrite is_digit_lower, IH. reflexivity.
Qed.

Lemma isdigit_lowercase s : isdigit (lowercase s) = isdigit s.
Proof.
  destruct s as [|c s]; [reflexivity|].
  exact (all_digits_lowercase (String c s)).
Qed.

Lemma isdigit_all_digits s : isdigit s = true -> all_digits s = true.
Proof. destruct s; [discriminate|]. intros H. exact H. Qed.

Lemma lstrip_start s : starts_without_space (lstrip s).
Proof.
  induction s as [|c s IH]; cbn [lstrip]; [exact I|].
  destruct (isspace c) eqn:E; [exact IH|exact E].
Qed.

Lemma lstrip_rstrip s :
  starts_without_space s -> lstrip (rstrip s) = rstrip s.
Proof.
  destruct s as [|c s]; [reflexivity|]. cbn [starts_without_space rstrip].
  intros E. destruct (rstrip s); [rewrite E|]; cbn [lstrip]; rewrite E;
    reflexivity.
Qed.

Lemma rstrip_rstrip s : rstrip (rstrip s) = rstrip s.
Proof.
  induction s as [|c s IH]; [reflexivity|]. cbn [rstrip].
  destruct (rstrip s) as [|c' r] eqn:E.
  - destruct (isspace c) eqn:Ec; cbn [rstrip]; [|rewrite Ec]; reflexivity.
  - cbn [rstrip] in IH |- *. rewrite IH. reflexivity.
Qed.

Lemma strip_strip s : strip (strip s) = strip s.
Proof.
  unfold strip. rewrite lstrip_rstrip by apply lstrip_start.
  apply rstrip_rstrip.
Qed.

Lemma lstrip_length s : (String.length (lstrip s) <= String.length s)%nat.
Proof.
  induction s as [|c s IH]; cbn [lstrip String.length]; [lia|].
  destruct (isspace c); cbn [String.length]; lia.
Qed.

Lemma rstrip_length s : (String.length (rstrip s) <= String.length s)%nat.
Proof.
  induction s as [|c s IH]; cbn [rstrip String.length]; [lia|].
  destruct (rstrip s); [destruct (isspace c)|]; cbn [String.length] in *;
    lia.
Qed.

Lemma strip_length s : (String.length (strip s) <= String.length s)%nat.
Proof.
  unfold strip. pose proof (rstrip_length (lstrip s)).
  pose proof (lstrip_length s). lia.
Qed.

End StringFacts.

Lemma int_of_digits_within_limit s :
  (String.length s <= int_max_str_digits)%nat ->
  int_of_digits s = Ok (digits_value 0 s).
Proof.
  intros H. unfold int_of_digits.
  destruct (Nat.ltb_spec int_max_str_digits (String.length s));
    [lia|reflexivity].
Qed.

Lemma int_of_digits_beyond_limit s :
  (int_max_str_digits < String.length s)%nat ->
  int_of_digits s = Raise ValueError.
Proof.
  intros H. unfold int_of_digits.
  destruct (Nat.ltb_spec int_max_str_digits (String.length s));
    [reflexivity|lia].
Qed.

(** The weekday names that [main] accepts are parsed by the engine to
    the week days Monday to Friday. *)
Lemma days_are_parsed freq_val :
  existsb (String.eqb freq_val) days = true ->
  exists wd, strptime_wday freq_val = Ok wd /\ 0 <= wd <= 4.
Proof.
  unfold days. cbn [existsb].
  repeat match goal with
         | |- context [String.eqb freq_val ?name] =>
             destruct (String.eqb_spec freq_val name) as [->|_];
             [intros _; eexists; split; [reflexivity|lia]|]
         end.
  cbn [orb]. discriminate.
Qed.

(** What [main] passes to the engine, where the day answer stays within
    the digit limit. *)
Lemma main_frequency_schedule freq_choice_answer freq_val_answer :
  (String.length (strip freq_val_answer) <= int_max_str_digits)%nat ->
  exists freq_type freq_val sched,
    main_frequency freq_choice_answer freq_val_answer =
      Ok (freq_type, freq_val) /\
    schedule_of freq_type freq_val = Ok sched /\
    valid_schedule sched.
Proof.
  intros Hlen. unfold main_frequency.
  destruct (String.eqb (lowercase (strip freq_choice_answer)) "weekly").
  - destruct (existsb _ days) eqn:E; cbn [negb].
    + eexists. eexists. eexists. split; [reflexivity|].
      split; [reflexivity|]. exact (days_are_parsed _ E).
    + eexists. eexists. eexists. split; [reflexivity|].
      split; [reflexivity|]. exists 0. split; [reflexivity|lia].
  - assert (Hone : exists sched,
               schedule_of "monthly" "1" = Ok sched /\ valid_schedule sched).
    { exists (monthly 1). split; [reflexivity|]. cbn. lia. }
    destruct (isdigit (strip freq_val_answer)); cbn [negb].
    + rewrite (int_of_digits_within_limit _ Hlen). cbn [bind].
      destruct (Z.leb_spec 1 (digits_value 0 (strip freq_val_answer)));
        destruct (Z.leb_spec (digits_value 0 (strip freq_val_answer)) 31);
        cbn [andb negb];
        try (destruct Hone as (sched & H1 & H2);
             eexists; eexists; exists sched;
             split; [reflexivity|]; split; assumption).
      eexists. eexists. eexists. split; [reflexivity|].
      unfold schedule_of. cbn [String.eqb Ascii.eqb Bool.eqb].
      rewrite (int_of_digits_within_limit _ Hlen). cbn [bind].
      split; [reflexivity|]. cbn. lia.
    + destruct Hone as (sched & H1 & H2).
      eexists. eexists. exists sched.
      split; [reflexivity|]. split; assumption.
Qed.

(** X12.  Whatever is typed at the two frequency prompts, where the
    answer for the day has no more characters than [int] converts,
    [main] passes the engine a valid schedule: monthly with a day from 1
    to 31, or weekly with a weekday name that the engine parses to a
    week day from Monday to Friday. *)
Theorem main_passes_a_valid_schedule
    (freq_choice_answer freq_val_answer : string)
    (Hlength :
       (String.length freq_val_answer <= int_max_str_digits)%nat) :
  exists freq_type freq_val sched,
    main_frequency freq_choice_answer freq_val_answer =
      Ok (freq_type, freq_val) /\
    schedule_of freq_type freq_val = Ok sched /\
    valid_schedule sched.
Proof.
  apply main_frequency_schedule.
  pose proof (StringFacts.strip_length freq_val_answer). lia.
Qed.

Lemma main_passes_a_valid_schedule_witness :
  exists freq_type freq_val sched,
    main_frequency " Weekly " "friday" = Ok (freq_type, freq_val) /\
    schedule_of freq_type freq_val = Ok sched /\
    valid_schedule sched.
Proof.
  apply (@main_passes_a_valid_schedule " Weekly " "friday").
  apply Nat.leb_le. reflexivity.
Defined.

(** X13.  On ASCII answers the frequency prompts fail in one case only:
    the choice is not 'weekly' and the answer for the day of the month is
    a string of more digits than [int] converts; [int], reached after
    [isdigit], then raises a [ValueError] instead of the default day
    being taken. *)
Theorem day_answer_beyond_the_digit_limit
    (freq_choice_answer freq_val_answer : string) (e : exn)
    (Hchoice : is_ascii freq_choice_answer = true)
    (Hanswer : is_ascii freq_val_answer = true) :
  main_frequency freq_choice_answer freq_val_answer = Raise e <->
  e = ValueError /\
  lowercase (strip freq_choice_answer) <> "weekly"%string /\
  isdigit (strip freq_val_answer) = true /\
  (int_max_str_digits < String.length (strip freq_val_answer))%nat.
Proof.
  unfold main_frequency.
  destruct (String.eqb_spec (lowercase (strip freq_choice_answer)) "weekly")
    as [Hw|Hw].
  - split.
    + destruct (negb _); discriminate.
    + intros (_ & H & _). contradiction.
  - destruct (isdigit (strip freq_val_answer)); cbn [negb].
    + destruct (Nat.lt_ge_cases int_max_str_digits
                  (String.length (strip freq_val_answer))) as [Hl|Hl].
      * rewrite (int_of_digits_beyond_limit _ Hl). cbn [bind]. split.
        -- intros [= <-]. auto.
        -- intros (-> & _). reflexivity.
      * rewrite (int_of_digits_within_limit _ Hl). cbn [bind]. split.
        -- destruct (negb _); discriminate.
        -- intros (_ & _ & _ & H). lia.
    + split; [discriminate|]. intros (_ & _ & H & _). discriminate.
Qed.

Lemma day_answer_beyond_the_digit_limit_witness :
  main_frequency "Monthly" " 007 " = Raise ValueError <->
  ValueError = ValueError /\
  lowercase (strip "Monthly") <> "weekly"%string /\
  isdigit (strip " 007 ") = true /\
  (int_max_str_digits < String.length (strip " 007 "))%nat.
Proof.
  apply (@day_answer_beyond_the_digit_limit "Monthly" " 007 " ValueError);
    reflexivity.
Defined.

(** X14.  The answers to the frequency prompts are read regardless of
    the blanks around them and of their letter case. *)
Theorem frequency_answers_are_normalised
    (freq_choice_answer freq_val_answer : string) :
  main_frequency (strip freq_choice_answer) (strip freq_val_answer) =
    main_frequency freq_choice_answer freq_val_answer /\
  main_frequency (lowercase freq_choice_answer)
      (lowercase freq_val_answer) =
    main_frequency freq_choice_answer freq_val_answer.
Proof.
  split.
  - unfold main_frequency. rewrite !StringFacts.strip_strip. reflexivity.
  - unfold main_frequency.
    rewrite <- !StringFacts.lowercase_strip, StringFacts.lowercase_lowercase.
    destruct (String.eqb _ "weekly").
    + rewrite StringFacts.capitalize_lowercase. reflexivity.
    + rewrite StringFacts.isdigit_lowercase.
      destruct (isdigit (strip freq_val_answer)) eqn:E; [|reflexivity].
      rewrite (StringFacts.lowercase_digits _
                 (StringFacts.isdigit_all_digits _ E)).
      reflexivity.
Qed.

Lemma index_from_name s names : forall i k,
  index_from i s names = Some k ->
  0 <= k - i /\ nth_error names (Z.to_nat (k - i)) = Some s.
Proof.
  induction names as [|name names IH]; intros i k; cbn [index_from];
    [discriminate|].
  destruct (String.eqb_spec s name) as [->|_].
  - intros [= <-]. rewrite Z.sub_diag. split; [lia|reflexivity].
  - intros H. apply IH in H. destruct H as [Hk H]. split; [lia|].
    replace (Z.to_nat (k - i)) with (S (Z.to_nat (k - (i + 1)))) by lia.
    exact H.
Qed.

(** X15.  In the weekly branch the weekday that [main] validates is the
    weekday that the engine parses: the day of the answer where the
    engine's parser reads the answer, blanks removed, as a day from
    Monday to Friday, and Monday for every other answer, Saturday and
    Sunday included. *)
Theorem weekly_answer_is_parsed_as_validated
    (freq_choice_answer freq_val_answer : string)
    (Hweekly : lowercase (strip freq_choice_answer) = "weekly"%string) :
  exists freq_val,
    main_frequency freq_choice_answer freq_val_answer =
      Ok ("weekly"%string, freq_val) /\
    strptime_wday freq_val =
      Ok (match strptime_wday (strip freq_val_answer) with
          | Ok wd => if wd <=? 4 then wd else 0
          | Raise _ => 0
          end).
Proof.
  unfold main_frequency. rewrite Hweekly. cbn [String.eqb Ascii.eqb Bool.eqb].
  set (s := strip freq_val_answer).
  assert (Hparse : strptime_wday (capitalize s) = strptime_wday s).
  { unfold strptime_wday. rewrite StringFacts.lowercase_capitalize.
    reflexivity. }
  destruct (existsb (String.eqb (capitalize s)) days) eqn:E; cbn [negb].
  - exists (capitalize s). split; [reflexivity|].
    destruct (days_are_parsed _ E) as (wd & Hwd & Hr).
    rewrite <- Hparse, Hwd.
    destruct (Z.leb_spec wd 4); [reflexivity|lia].
  - exists "Monday"%string. split; [reflexivity|].
    change (strptime_wday "Monday") with (@Ok Z 0). f_equal.
    destruct (strptime_wday s) as [wd|] eqn:Hwd; [|reflexivity].
    destruct (Z.leb_spec wd 4) as [Hle|]; [|reflexivity].
    exfalso.
    unfold strptime_wday in Hwd.
    destruct (index_from 0 (lowercase s) day_name) as [k|] eqn:Hk;
      [|discriminate].
    injection Hwd as ->.
    pose proof (index_from_name _ _ _ Hk) as [H0 Hnth].
    rewrite Z.sub_0_r in H0, Hnth.
    assert (Hin : existsb (String.eqb (capitalize (lowercase s))) days
                  = true).
    { assert (Hcases : wd = 0 \/ wd = 1 \/ wd = 2 \/ wd = 3 \/ wd = 4)
        by lia.
      destruct Hcases as [->|[->|[->|[->| ->]]]];
        cbn in Hnth; injection Hnth as <-; reflexivity. }
    rewrite StringFacts.capitalize_lowercase, E in Hin. discriminate Hin.
Qed.

Lemma weekly_answer_is_parsed_as_validated_witness :
  exists freq_val,
    main_frequency " Weekly " "TUESDAY " =
      Ok ("weekly"%string, freq_val) /\
    strptime_wday freq_val =
      Ok (match strptime_wday (strip "TUESDAY ") with
          | Ok wd => if wd <=? 4 then wd else 0
          | Raise _ => 0
          end).
Proof.
  apply (@weekly_answer_is_parsed_as_validated " Weekly " "TUESDAY ").
  reflexivity.
Defined.

(** ** The simulation of [main] *)

Lemma calculate_sip_length tz df amount sched out :
  calculate_sip tz df amount sched = Ok out ->
  List.length out = List.length (dropna df).
Proof.
  intros Hout.
  destruct (output_row_source _ _ _ _ Hout) as (inv & _ & _ & Hb & _).
  apply (f_equal (@List.length Row)) in Hb.
  rewrite !length_map in Hb. exact Hb.
Qed.

(** The engine on a valid schedule: it fails only where no close is
    present, and then on the index of the first date. *)
Lemma valid_schedule_engine tz df amount sched :
  valid_schedule sched ->
  (dropna df = [] ->
   calculate_sip tz df amount sched = Ok [] \/
   calculate_sip tz df amount sched = Raise IndexError) /\
  (dropna df <> [] ->
   exists out, calculate_sip tz df amount sched = Ok out).
Proof.
  destruct sched as [dom|freq_val|]; cbn [valid_schedule];
    [intros Hdom|intros (wd & Hwd & _)|intros []]; split.
  - intros E. left. unfold calculate_sip. rewrite E. reflexivity.
  - intros _. unfold calculate_sip.
    rewrite monthly_dates by (apply c_int_range; lia). cbn [bind].
    eexists. reflexivity.
  - intros E. right. unfold calculate_sip, resolve_investment_dates.
    rewrite E, Hwd. reflexivity.
  - intros E. unfold calculate_sip, resolve_investment_dates.
    rewrite Hwd. cbn [bind].
    destruct (dropna df) as [|p l]; [contradiction|].
    cbn [init_columns map]. eexists. reflexivity.
Qed.

Lemma main_process_on_valid_schedule tz hist_data amount sched :
  valid_schedule sched ->
  (hist_data = [] ->
   main_process tz hist_data amount sched = Raise ValueError) /\
  (hist_data <> [] -> dropna hist_data = [] ->
   main_process tz hist_data amount sched = Raise IndexError) /\
  (dropna hist_data <> [] ->
   exists results_df final_stats,
     main_process tz hist_data amount sched =
       Ok (results_df, final_stats) /\
     List.length results_df = List.length (dropna hist_data) /\
     exists pre, results_df = pre ++ [final_stats]).
Proof.
  intros Hvalid.
  destruct (@valid_schedule_engine tz hist_data amount sched Hvalid)
    as [Hnone Hsome].
  split; [intros ->; reflexivity|]. split.
  - intros Hne E. destruct hist_data as [|p l]; [contradiction|].
    unfold main_process.
    destruct (Hnone E) as [-> | ->]; reflexivity.
  - intros Hne. destruct (Hsome Hne) as (out & Hout).
    pose proof (calculate_sip_length _ _ _ _ Hout) as Hlen.
    destruct hist_data as [|p l]; [contradiction Hne; reflexivity|].
    unfold main_process. rewrite Hout. cbn [bind].
    destruct (rev out) as [|final rest] eqn:Hrev.
    + apply (f_equal (@List.length AccumulatedRow)) in Hrev.
      rewrite length_rev in Hrev. cbn [List.length] in Hrev.
      destruct (dropna (p :: l)); [contradiction Hne; reflexivity|].
      cbn [List.length] in Hlen. lia.
    + exists out, final. split; [reflexivity|]. split; [exact Hlen|].
      exists (rev rest). rewrite <- (rev_involutive out), Hrev.
      reflexivity.
Qed.

(** X16.  After the frequency prompts, where the answer for the day has
    no more characters than [int] converts, the simulation of [main]
    fails in two cases only: with a [ValueError] on a history without
    rows, and with an [IndexError] on a history in which no close is
    present; on every other history it reaches the summary, whose row is
    the last row of a series with one row for each present close. *)
Theorem simulation_fails_only_without_prices
    (tz : tzinfo) (freq_choice_answer freq_val_answer : string)
    (hist_data : list (Timestamp * float)) (amount : float)
    (Hlength :
       (String.length freq_val_answer <= int_max_str_digits)%nat) :
  (hist_data = [] ->
   main_simulation tz freq_choice_answer freq_val_answer hist_data amount =
     Raise ValueError) /\
  (hist_data <> [] -> dropna hist_data = [] ->
   main_simulation tz freq_choice_answer freq_val_answer hist_data amount =
     Raise IndexError) /\
  (dropna hist_data <> [] ->
   exists results_df final_stats,
     main_simulation tz freq_choice_answer freq_val_answer hist_data amount =
       Ok (results_df, final_stats, summary_roi final_stats) /\
     List.length results_df = List.length (dropna hist_data) /\
     exists pre, results_df = pre ++ [final_stats]).
Proof.
  destruct (@main_frequency_schedule freq_choice_answer freq_val_answer)
    as (freq_type & freq_val & sched & Hfreq & Hsched & Hvalid).
  { pose proof (StringFacts.strip_length freq_val_answer). lia. }
  destruct (@main_process_on_valid_schedule tz hist_data amount sched
              Hvalid)
    as (Hempty & Hnone & Hsome).
  unfold main_simulation. rewrite Hfreq. cbn [bind fst snd].
  split; [intros ->; reflexivity|]. split.
  - intros Hne E. destruct hist_data as [|p l]; [contradiction|].
    rewrite Hsched. cbn [bind]. rewrite (Hnone Hne E). reflexivity.
  - intros Hne. destruct (Hsome Hne) as (out & final & Hrun & Hlen & Hlast).
    destruct hist_data as [|p l]; [contradiction Hne; reflexivity|].
    rewrite Hsched. cbn [bind]. rewrite Hrun. cbn [bind fst snd].
    exists out, final. auto.
Qed.

Lemma simulation_fails_only_without_prices_witness :
  let hist_data := [(date 2024 1 2, NaN); (date 2024 1 3, of_Z 10)] in
  (hist_data = [] ->
   main_simulation fixed_offset "weekly" "Wednesday" hist_data (of_Z 100) =
     Raise ValueError) /\
  (hist_data <> [] -> dropna hist_data = [] ->
   main_simulation fixed_offset "weekly" "Wednesday" hist_data (of_Z 100) =
     Raise IndexError) /\
  (dropna hist_data <> [] ->
   exists results_df final_stats,
     main_simulation fixed_offset "weekly" "Wednesday" hist_data
       (of_Z 100) =
       Ok (results_df, final_stats, summary_roi final_stats) /\
     List.length results_df = List.length (dropna hist_data) /\
     exists pre, results_df = pre ++ [final_stats]).
Proof.
  cbv zeta.
  apply (@simulation_fails_only_without_prices fixed_offset
           "weekly" "Wednesday"
           [(date 2024 1 2, NaN); (date 2024 1 3, of_Z 10)] (of_Z 100)).
  apply Nat.leb_le. reflexivity.
Defined.

Lemma zero_invested_row tz df amount sched out (r : AccumulatedRow) :
  calculate_sip tz df amount sched = Ok out ->
  In r out -> Total_Invested r = zero -> Profit_Pct r = zero.
Proof.
  intros Hout Hr Hz. apply calculate_sip_rows in Hout.
  destruct Hout as (inv & _ & _ & ->).
  pose proof (zip_rows_derive _ _ _ _ Hr) as Hd.
  rewrite Hd, Hz. apply profit_pct_of_zero_invested.
  apply (@zero_invested_zero_shares amount inv (dropna df) zero zero).
  - left. split; reflexivity.
  - exact Hr.
  - exact Hz.
Qed.

(** With an amount that is not negative no total invested is below 0. *)
Lemma total_invested_nonneg tz df (a : Qc) sched out (r : AccumulatedRow) :
  (0 <= a)%Qc ->
  calculate_sip tz df (Fin a) sched = Ok out ->
  In r out -> fle zero (Total_Invested r).
Proof.
  intros Ha Hout Hr. apply calculate_sip_rows in Hout.
  destruct Hout as (inv & _ & _ & ->).
  destruct (totals_columns (map (contributed_row (Fin a) inv) (dropna df)))
    as (_ & Hti & _).
  apply (in_map Total_Invested) in Hr. rewrite Hti in Hr.
  unfold cumsum, zero in Hr |- *.
  assert (Hcells : Forall nonneg_real
                     (map Invested_Today
                        (map (contributed_row (Fin a) inv) (dropna df)))).
  { rewrite map_map. apply Forall_forall. intros x Hx.
    apply in_map_iff in Hx. destruct Hx as (p & <- & _).
    unfold contributed_row.
    destruct (existsb (Z.eqb (fst p)) inv); cbn; [exact Ha|].
    apply Qcle_refl. }
  destruct (cumsum_from_sorted Hcells 0%Qc) as [_ Hall].
  rewrite Forall_forall in Hall. exact (Hall _ Hr).
Qed.

(** The return on investment of a row of the engine's output, for an
    amount that is not negative. *)
Lemma roi_of_output_row tz df (a : Qc) sched out (r : AccumulatedRow) :
  (0 <= a)%Qc ->
  calculate_sip tz df (Fin a) sched = Ok out ->
  In r out ->
  Profit_Pct r = fillna zero (summary_roi r).
Proof.
  intros Ha Hout Hr.
  pose proof (@total_invested_nonneg tz df a sched out r Ha Hout Hr) as Hle.
  destruct (output_row_columns _ _ _ _ Hout) as (inv & _ & _ & Hrow).
  destruct (Hrow r Hr) as (_ & _ & _ & _ & _ & Hpct).
  destruct (Total_Invested r) as [t| | |] eqn:Hti; cbn [fle zero] in Hle;
    try contradiction.
  - apply Qcle_lt_or_eq in Hle. destruct Hle as [Hpos|Hzero].
    + assert (Hs : sgn t = Gt) by (apply FloatFacts.sgn_Gt; exact Hpos).
      unfold summary_roi. rewrite Hti. cbn [fgtb zero].
      change (t ?= 0)%Qc with (sgn t). rewrite Hs. exact Hpct.
    + assert (Hz : Total_Invested r = zero)
        by (rewrite Hti, <- Hzero; reflexivity).
      unfold summary_roi. rewrite Hz. cbn.
      exact (@zero_invested_row tz df (Fin a) sched out r Hout Hr Hz).
  - unfold summary_roi. rewrite Hti. exact Hpct.
Qed.

(** X17.  With an amount that is not negative, the return on investment
    that the summary prints is the profit percentage of the last row of
    the series before a missing value is replaced there: the row holds
    the return with 0 in the place of a missing one, and the return
    itself where it is not missing. *)
Theorem summary_roi_is_the_final_profit_pct
    (tz : tzinfo) (freq_choice_answer freq_val_answer : string)
    (hist_data : list (Timestamp * float)) (a : Qc)
    (results_df : list AccumulatedRow) (final_stats : AccumulatedRow)
    (roi : float)
    (Hamount : (0 <= a)%Qc)
    (Hrun :
       main_simulation tz freq_choice_answer freq_val_answer hist_data
         (Fin a) = Ok (results_df, final_stats, roi)) :
  Profit_Pct final_stats = fillna zero roi /\
  (isna roi = false -> roi = Profit_Pct final_stats).
Proof.
  unfold main_simulation in Hrun.
  destruct (main_frequency freq_choice_answer freq_val_answer)
    as [frequency|]; cbn [bind] in Hrun; [|discriminate].
  destruct hist_data as [|p l]; [discriminate|].
  destruct (schedule_of (fst frequency) (snd frequency)) as [sched|];
    cbn [bind] in Hrun; [|discriminate].
  unfold main_process in Hrun.
  destruct (calculate_sip tz (p :: l) (Fin a) sched) as [out|] eqn:Hout;
    cbn [bind] in Hrun; [|discriminate].
  destruct (rev out) as [|final rest] eqn:Hrev; cbn [bind] in Hrun;
    [discriminate|].
  cbn [fst snd] in Hrun. injection Hrun as <- <- <-.
  assert (Hpct : Profit_Pct final = fillna zero (summary_roi final)).
  { apply (@roi_of_output_row tz (p :: l) a sched out final Hamount Hout).
    apply in_rev. rewrite Hrev. left. reflexivity. }
  split; [exact Hpct|].
  intros Hna. rewrite Hpct. unfold fillna. rewrite Hna. reflexivity.
Qed.

Lemma summary_roi_is_the_final_profit_pct_witness :
  exists results_df final_stats roi,
    main_simulation fixed_offset "monthly" "1"
      [(date 2024 1 2, of_Z 10); (date 2024 2 1, of_Z 20)]
      (Fin (Qc_of_Z 100)) = Ok (results_df, final_stats, roi) /\
    Profit_Pct final_stats = fillna zero roi /\
    (isna roi = false -> roi = Profit_Pct final_stats).
Proof.
  assert (Hrun : {x | main_simulation fixed_offset "monthly" "1"
                        [(date 2024 1 2, of_Z 10); (date 2024 2 1, of_Z 20)]
                        (Fin (Qc_of_Z 100)) = Ok x})
    by (eexists; vm_compute; reflexivity).
  destruct Hrun as [[[results_df final_stats] roi] Hrun].
  exists results_df, final_stats, roi. split; [exact Hrun|].
  refine (@summary_roi_is_the_final_profit_pct fixed_offset "monthly" "1"
            [(date 2024 1 2, of_Z 10); (date 2024 2 1, of_Z 20)]
            (Qc_of_Z 100) results_df final_stats roi _ Hrun).
  discriminate.
Defined.

(** ** The total invested at the end *)

Lemma output_dates tz df amount sched out :
  calculate_sip tz df amount sched = Ok out ->
  map (fun r : AccumulatedRow => Date r) out = map fst (dropna df).
Proof.
  intros Hout.
  destruct (output_row_source _ _ _ _ Hout) as (inv & _ & _ & Hb & _).
  rewrite <- (map_map base Date), Hb, map_map. apply map_ext.
  intros p. apply contributed_row_date.
Qed.

Lemma contribution_rows investment_dates (rows : list AccumulatedRow) :
  List.length (filter (is_contribution investment_dates) rows) =
  List.length (filter (fun d => existsb (Z.eqb d) investment_dates)
                 (map (fun r : AccumulatedRow => Date r) rows)).
Proof.
  induction rows as [|r rows IH]; cbn [filter map]; [reflexivity|].
  unfold is_contribution at 1.
  destruct (existsb (Z.eqb (Date r)) investment_dates);
    cbn [List.length]; rewrite IH; reflexivity.
Qed.

Lemma filter_none (f : Timestamp -> bool) l :
  (forall x, In x l -> f x = false) -> filter f l = [].
Proof.
  induction l as [|x l IH]; intros H; cbn [filter]; [reflexivity|].
  rewrite (H x (or_introl eq_refl)). apply IH.
  intros y Hy. apply H. right. exact Hy.
Qed.

(** The days of a list without repetitions that are among given dates of
    that list are as many as the dates. *)
Lemma members_count (investment_dates : list Timestamp) :
  NoDup investment_dates ->
  forall l,
    NoDup l ->
    (forall d, In d investment_dates -> In d l) ->
    List.length (filter (fun d => existsb (Z.eqb d) investment_dates) l) =
    List.length investment_dates.
Proof.
  induction 1 as [|d inv Hd Hnd IH]; intros l Hl Hincl.
  - rewrite filter_none; [reflexivity|]. intros x _. reflexivity.
  - destruct (in_split d l (Hincl d (or_introl eq_refl)))
      as (l1 & l2 & ->).
    pose proof (NoDup_remove_1 _ _ _ Hl) as Hl'.
    pose proof (NoDup_remove_2 _ _ _ Hl) as Hout.
    assert (Hsame : forall x, In x (l1 ++ l2) ->
               existsb (Z.eqb x) (d :: inv) = existsb (Z.eqb x) inv).
    { intros x Hx. cbn [existsb].
      destruct (Z.eqb_spec x d) as [->|_]; [contradiction|reflexivity]. }
    rewrite filter_app. cbn [filter existsb]. rewrite Z.eqb_refl.
    cbn [orb]. rewrite length_app. cbn [List.length].
    rewrite (filter_ext_in _ (fun x => existsb (Z.eqb x) inv) l1)
      by (intros x Hx; apply Hsame, in_or_app; left; exact Hx).
    rewrite (filter_ext_in _ (fun x => existsb (Z.eqb x) inv) l2)
      by (intros x Hx; apply Hsame, in_or_app; right; exact Hx).
    rewrite Nat.add_succ_r, <- length_app, <- filter_app. f_equal.
    apply IH; [exact Hl'|].
    intros x Hx. pose proof (Hincl x (or_intror Hx)) as Hin.
    apply in_app_or in Hin. apply in_or_app.
    destruct Hin as [Hin|[->|Hin]]; [left; exact Hin| |right; exact Hin].
    contradiction.
Qed.

Lemma resolved_dates_are_trading_days tz sched trading_days
    investment_dates :
  resolve_investment_dates tz sched trading_days = Ok investment_dates ->
  forall d, In d investment_dates -> In d trading_days.
Proof.
  intros H d Hd. apply resolved_dates_are_rolled in H.
  destruct H as (targets & -> & _).
  apply dedup_In, roll_forward_all_In in Hd.
  destruct Hd as (t & _ & E). exact (next_trading_day_in _ _ E).
Qed.

(** X19.  On a series whose dates are pairwise distinct, every
    investment date has its one row: the contribution days of the output
    are as many as the investment dates, and, with an amount that is not
    missing, the total invested on the last row, which is the one that
    the summary prints, is the amount added to 0 once for every
    investment date. *)
Theorem total_invested_at_the_end
    (tz : tzinfo) (df : list (Timestamp * float)) (amount : float)
    (sched : schedule) (out pre : list AccumulatedRow)
    (final_stats : AccumulatedRow)
    (Hamount : isna amount = false)
    (Hdistinct : NoDup (map fst (dropna df)))
    (Hout : calculate_sip tz df amount sched = Ok out)
    (Hlast : out = pre ++ [final_stats]) :
  exists investment_dates,
    resolve_investment_dates tz sched (map fst (dropna df)) =
      Ok investment_dates /\
    contributions investment_dates out = List.length investment_dates /\
    Total_Invested final_stats =
      amount_added (List.length investment_dates) amount.
Proof.
  destruct (output_row_columns _ _ _ _ Hout) as (inv & Hres & _).
  exists inv. split; [exact Hres|].
  assert (Hcount : contributions inv out = List.length inv).
  { unfold contributions. rewrite contribution_rows.
    rewrite (output_dates _ _ _ _ Hout).
    exact (members_count (resolved_dates_NoDup _ _ _ Hres) Hdistinct
             (resolved_dates_are_trading_days _ _ _ Hres)). }
  split; [exact Hcount|].
  rewrite (@total_invested_prefix tz df amount sched out inv pre
             final_stats [] Hamount Hout Hres Hlast).
  rewrite <- Hlast, Hcount. reflexivity.
Qed.

Lemma total_invested_at_the_end_witness :
  exists out,
    calculate_sip fixed_offset
      [(date 2024 1 2, of_Z 10); (date 2024 2 1, of_Z 20)]
      (of_Z 100) (monthly 1) = Ok out /\
    forall pre final_stats,
      out = pre ++ [final_stats] ->
      exists investment_dates,
        resolve_investment_dates fixed_offset (monthly 1)
          (map fst (dropna [(date 2024 1 2, of_Z 10);
                            (date 2024 2 1, of_Z 20)])) =
          Ok investment_dates /\
        contributions investment_dates out =
          List.length investment_dates /\
        Total_Invested final_stats =
          amount_added (List.length investment_dates) (of_Z 100).
Proof.
  engine_result Hout.
  intros pre final_stats Hlast.
  refine (@total_invested_at_the_end fixed_offset
            [(date 2024 1 2, of_Z 10); (date 2024 2 1, of_Z 20)]
            (of_Z 100) (monthly 1) out pre final_stats eq_refl _ Hout
            Hlast).
  repeat constructor; cbn [In]; intros H;
    repeat (destruct H as [H|H]; [vm_compute in H; discriminate H|]);
    exact H.
Defined.

(** ** The prompt for the ISIN *)

Lemma isspace_upper c : isspace (upper c) = isspace c.
Proof. StringFacts.ascii_cases c. Qed.

Lemma upper_upper c : upper (upper c) = upper c.
Proof. StringFacts.ascii_cases c. Qed.

Lemma uppercase_uppercase s : uppercase (uppercase s) = uppercase s.
Proof.
  induction s as [|c s IH]; cbn [uppercase]; [reflexivity|].
  rewrite upper_upper, IH. reflexivity.
Qed.

Lemma uppercase_lstrip s : uppercase (lstrip s) = lstrip (uppercase s).
Proof.
  induction s as [|c s IH]; cbn [uppercase lstrip]; [reflexivity|].
  rewrite isspace_upper. destruct (isspace c); [exact IH|reflexivity].
Qed.

Lemma uppercase_rstrip s : uppercase (rstrip s) = rstrip (uppercase s).
Proof.
  induction s as [|c s IH]; cbn [uppercase rstrip]; [reflexivity|].
  rewrite <- IH, isspace_upper.
  destruct (rstrip s) as [|c' r]; cbn [uppercase]; [|reflexivity].
  destruct (isspace c); reflexivity.
Qed.

Lemma uppercase_strip s : uppercase (strip s) = strip (uppercase s).
Proof.
  unfold strip. rewrite uppercase_rstrip, uppercase_lstrip. reflexivity.
Qed.

Lemma uppercase_empty s : uppercase s = EmptyString <-> s = EmptyString.
Proof. destruct s; cbn [uppercase]; split; (reflexivity || discriminate). Qed.

(** X20.  The ISIN that [main] goes on with is the first answer that is
    not blank, without the blanks around it and in upper case: it is not
    empty, it has no blank at either end, and every answer before it was
    blank. *)
Theorem isin_is_the_first_answer_that_is_not_blank
    (answers : list string) (isin : string)
    (Hread : main_isin answers = Some isin) :
  isin <> EmptyString /\
  strip isin = isin /\
  uppercase isin = isin /\
  exists blanks answer later,
    answers = blanks ++ answer :: later /\
    Forall (fun a => strip a = EmptyString) blanks /\
    isin = uppercase (strip answer).
Proof.
  induction answers as [|answer answers IH]; cbn [main_isin] in Hread;
    [discriminate|].
  destruct (String.eqb_spec (uppercase (strip answer)) "") as [E|E].
  - destruct (IH Hread) as (H1 & H2 & H3 & blanks & a & later & -> & Hb & Ha).
    split; [exact H1|]. split; [exact H2|]. split; [exact H3|].
    exists (answer :: blanks), a, later.
    split; [reflexivity|]. split; [|exact Ha].
    constructor; [|exact Hb]. apply uppercase_empty. exact E.
  - injection Hread as <-. split; [exact E|].
    split; [rewrite <- uppercase_strip, StringFacts.strip_strip;
            reflexivity|].
    split; [apply uppercase_uppercase|].
    exists [], answer, answers. split; [reflexivity|].
    split; [constructor|reflexivity].
Qed.

Lemma isin_is_the_first_answer_that_is_not_blank_witness :
  "IE00B4L5Y983"%string <> EmptyString /\
  strip "IE00B4L5Y983" = "IE00B4L5Y983"%string /\
  uppercase "IE00B4L5Y983" = "IE00B4L5Y983"%string /\
  exists blanks answer later,
    ["  "; ""; " ie00b4l5y983 "; "x"]%string = blanks ++ answer :: later /\
    Forall (fun a => strip a = EmptyString) blanks /\
    "IE00B4L5Y983"%string = uppercase (strip answer).
Proof.
  apply (@isin_is_the_first_answer_that_is_not_blank
           ["  "; ""; " ie00b4l5y983 "; "x"]%string "IE00B4L5Y983").
  reflexivity.
Defined.
